(** * OpcUaEndpointDiscovery: request tracking and result delivery

    A shallow embedding of [src/imports/opcua/opcuaendpointdiscovery.cpp]
    (the QML [EndpointDiscovery] element of QtOpcUa) and the properties of
    its request/response life cycle.

    The object is single threaded.  Its member functions are embedded as
    computations of a small state monad that also records, in program
    order, every signal the object emits and every request it hands to the
    backend client.  The two connections made in the constructor
    ([serverUrlChanged] and [connectionChanged] to [startRequestEndpoints])
    are direct: the slot runs inside the [emit]. *)

From stdpp Require Import base option list strings gmap.

Local Open Scope Z_scope.

(** ** Status codes *)

(** Modelled from the spec: the enumeration [QOpcUa::UaStatusCode] and the
    wrapper class [OpcUaStatus] are declared in headers that are not part of
    this file.  The spec lists the tagged values Good, pending (Good,
    completes asynchronously), BadNotConnected, BadInvalidArgument and other
    backend codes; the encoding is the OPC UA one, an unsigned 32-bit code
    whose two top bits carry the severity, both clear for the good codes. *)
Module QOpcUa.

Definition UaStatusCode := Z.

Definition Good : UaStatusCode := 0x00000000.
Definition GoodCompletesAsynchronously : UaStatusCode := 0x002E0000.
Definition BadTimeout : UaStatusCode := 0x800A0000.
Definition BadNotConnected : UaStatusCode := 0x808A0000.
Definition BadInvalidArgument : UaStatusCode := 0x80AB0000.

End QOpcUa.

Record OpcUaStatus := mkOpcUaStatus { m_statusCode : QOpcUa.UaStatusCode }.

(** Modelled from the spec: the default-constructed status is the neutral
    value Good. *)
Definition OpcUaStatus_default : OpcUaStatus := mkOpcUaStatus QOpcUa.Good.

(** Modelled from the spec: [OpcUaStatus::isGood] and [isBad] belong to the
    wrapper class.  A status is good when both severity bits are clear;
    the spec words the test [m_status.isBad()] of [handleEndpoints] as
    "the resulting status is not good", so bad is the negation of good. *)
Definition isGood (st : OpcUaStatus) : bool :=
  Z.land (m_statusCode st) 0xC0000000 =? 0.

Definition isBad (st : OpcUaStatus) : bool := negb (isGood st).

(** ** Qt value types *)

Definition QString_isEmpty (s : string) : bool :=
  match s with
  | EmptyString => true
  | String _ _ => false
  end.

(** [QVector::at(i)] requires [0 <= i < size()]; outside that range the
    call is an assertion failure (undefined behaviour in a release build),
    rendered here as [None]. *)
Definition QVector_at {A : Type} (v : list A) (i : Z) : option A :=
  if bool_decide (0 ≤ i < Z.of_nat (length v)) then v !! Z.to_nat i else None.

(** ** Pointers and the collaborators *)

(** An [OpcUaConnection *] and a [QOpcUaClient *] are addresses; [nullptr]
    is [None] of the option type. *)
Definition OpcUaConnection := nat.
Definition QOpcUaClient := nat.

(** What the object reads from its collaborators at the time of a call:
    the process-wide default connection, and for every connection object
    its current backend client ([conn->m_client], absent when null). *)
Record Env := mkEnv {
  defaultConnection : option OpcUaConnection;
  client_of : gmap OpcUaConnection QOpcUaClient
}.

(** ** Sample data

    A plant with one connection object whose backend client is live, used
    to run the code on concrete inputs further down.  Endpoint descriptions
    are represented there by their endpoint URL and a [QUrl] by its text. *)
Module Sample.

Definition urlA : string := "opc.tcp://plc-a:4840".
Definition urlB : string := "opc.tcp://plc-b:4840".

Definition conn1 : OpcUaConnection := 1%nat.
Definition client1 : QOpcUaClient := 7%nat.

(** No default connection is registered; [conn1] has a client. *)
Definition plant : Env := mkEnv None {[conn1 := client1]}.

(** [conn1] is registered as the default connection. *)
Definition plant_default : Env := mkEnv (Some conn1) {[conn1 := client1]}.

Definition endpoint : Type := string.
Definition ep1 : endpoint := "opc.tcp://plc-a:4840/basic256".
Definition no_endpoint : endpoint := "".

Definition QUrl_text (s : string) : string := s.

(** A second connection with its own client, and a plant whose connection
    [conn1] has lost its backend. *)
Definition conn2 : OpcUaConnection := 2%nat.
Definition client2 : QOpcUaClient := 9%nat.
Definition plant_two : Env :=
  mkEnv None {[conn1 := client1; conn2 := client2]}.
Definition plant_offline : Env := mkEnv None ∅.

End Sample.

Section Discovery.

(** Endpoint descriptions are opaque value records; [QUrl] is Qt's parsed
    URL type, compared with its own equality, and a [QString] converts to
    it implicitly. *)
Context {QOpcUaEndpointDescription : Type}.
Context (QOpcUaEndpointDescription_default : QOpcUaEndpointDescription).
Context {QUrl : Type} `{!EqDecision QUrl}.
Context (QUrl_fromString : string → QUrl).

(** ** The object *)

Record OpcUaEndpointDiscovery := mkDiscovery {
  m_serverUrl : string;
  m_connection : option OpcUaConnection;
  m_endpoints : list QOpcUaEndpointDescription;
  m_status : OpcUaStatus;
  m_componentCompleted : bool;
  (** Qt's connection table, as far as this object writes it: the
      connections whose [backendChanged] runs [connectSignals], and the
      clients whose [endpointsRequestFinished] runs [handleEndpoints]
      (both made with [Qt::UniqueConnection]). *)
  slots_backendChanged : gset OpcUaConnection;
  slots_endpointsRequestFinished : gset QOpcUaClient
}.

Definition set_serverUrl (u : string) (s : OpcUaEndpointDiscovery) :=
  mkDiscovery u (m_connection s) (m_endpoints s) (m_status s)
    (m_componentCompleted s) (slots_backendChanged s)
    (slots_endpointsRequestFinished s).

Definition set_connection (c : option OpcUaConnection) (s : OpcUaEndpointDiscovery) :=
  mkDiscovery (m_serverUrl s) c (m_endpoints s) (m_status s)
    (m_componentCompleted s) (slots_backendChanged s)
    (slots_endpointsRequestFinished s).

Definition set_endpoints (l : list QOpcUaEndpointDescription) (s : OpcUaEndpointDiscovery) :=
  mkDiscovery (m_serverUrl s) (m_connection s) l (m_status s)
    (m_componentCompleted s) (slots_backendChanged s)
    (slots_endpointsRequestFinished s).

Definition set_status (st : OpcUaStatus) (s : OpcUaEndpointDiscovery) :=
  mkDiscovery (m_serverUrl s) (m_connection s) (m_endpoints s) st
    (m_componentCompleted s) (slots_backendChanged s)
    (slots_endpointsRequestFinished s).

Definition set_componentCompleted (b : bool) (s : OpcUaEndpointDiscovery) :=
  mkDiscovery (m_serverUrl s) (m_connection s) (m_endpoints s) (m_status s)
    b (slots_backendChanged s) (slots_endpointsRequestFinished s).

Definition set_slots_backendChanged (g : gset OpcUaConnection) (s : OpcUaEndpointDiscovery) :=
  mkDiscovery (m_serverUrl s) (m_connection s) (m_endpoints s) (m_status s)
    (m_componentCompleted s) g (slots_endpointsRequestFinished s).

Definition set_slots_endpointsRequestFinished (g : gset QOpcUaClient) (s : OpcUaEndpointDiscovery) :=
  mkDiscovery (m_serverUrl s) (m_connection s) (m_endpoints s) (m_status s)
    (m_componentCompleted s) (slots_backendChanged s) g.

(** The object after its constructor.  Modelled from the spec: the class
    declaration is in a header outside this file; result set and status
    are created empty and neutral, no connection is set and construction
    is not complete. *)
Definition constructed : OpcUaEndpointDiscovery :=
  mkDiscovery "" None [] OpcUaStatus_default false ∅ ∅.

(** ** Observable effects *)

Inductive Effect :=
| serverUrlChanged (url : string)
| connectionChanged (c : OpcUaConnection)
| endpointsChanged
| countChanged
| statusChanged
| requestEndpoints (client : QOpcUaClient) (url : QUrl).

Definition is_request (e : Effect) : bool :=
  match e with
  | requestEndpoints _ _ => true
  | _ => false
  end.

(** The discovery requests among the effects of a call. *)
Definition requests (log : list Effect) : list Effect :=
  List.filter is_request log.

(** ** The monad: state, effect log, and running out of fuel *)

Definition M (A : Type) : Type :=
  OpcUaEndpointDiscovery → option (A * OpcUaEndpointDiscovery * list Effect).

Definition ret {A} (a : A) : M A := λ s, Some (a, s, []).

Definition bind {A B} (m : M A) (f : A → M B) : M B := λ s,
  match m s with
  | None => None
  | Some (a, s1, l1) =>
      match f a s1 with
      | None => None
      | Some (b, s2, l2) => Some (b, s2, l1 ++ l2)
      end
  end.

Definition gets {A} (f : OpcUaEndpointDiscovery → A) : M A := λ s, Some (f s, s, []).
Definition modify (f : OpcUaEndpointDiscovery → OpcUaEndpointDiscovery) : M unit :=
  λ s, Some (tt, f s, []).
Definition emit (e : Effect) : M unit := λ s, Some (tt, s, [e]).
Definition out_of_fuel {A} : M A := λ _, None.

Notation "x <- m ;; k" := (bind m (λ x, k))
  (at level 100, m at next level, right associativity).
Notation "m ;;; k" := (bind m (λ _, k))
  (at level 100, right associativity).

(** ** Member functions *)

Definition count (s : OpcUaEndpointDiscovery) : Z :=
  Z.of_nat (length (m_endpoints s)).

Definition at_ (s : OpcUaEndpointDiscovery) (row : Z)
  : option QOpcUaEndpointDescription :=
  if bool_decide (row >= count s) then Some QOpcUaEndpointDescription_default
  else QVector_at (m_endpoints s) row.

Definition handleEndpoints (endpoints : list QOpcUaEndpointDescription)
    (statusCode : QOpcUa.UaStatusCode) (requestUrl : QUrl) : M unit :=
  url <- gets m_serverUrl ;;
  if bool_decide (requestUrl ≠ QUrl_fromString url) then ret tt
  else
    modify (set_status (mkOpcUaStatus statusCode)) ;;;
    st <- gets m_status ;;
    if isBad st then emit statusChanged
    else
      modify (set_endpoints endpoints) ;;;
      emit endpointsChanged ;;;
      emit countChanged ;;;
      emit statusChanged.

(** [startRequestEndpoints], [connection], [setConnection] and
    [connectSignals] call one another ([setConnection] reaches
    [startRequestEndpoints] through the [connectionChanged] signal); they
    are defined together, every call spending one unit of fuel. *)
Section Calls.

Variable env : Env.

Fixpoint startRequestEndpoints (fuel : nat) : M unit :=
  match fuel with
  | O => out_of_fuel
  | S fuel =>
      completed <- gets m_componentCompleted ;;
      if negb completed then ret tt
      else
        url <- gets m_serverUrl ;;
        if QString_isEmpty url then ret tt
        else
          modify (set_endpoints []) ;;;
          cur <- gets m_connection ;;
          match cur with
          | None => _ <- connection fuel ;; ret tt
          | Some _ =>
              conn <- connection fuel ;;
              (match conn with
               | None =>
                   modify (set_status (mkOpcUaStatus QOpcUa.BadNotConnected))
               | Some c =>
                   match client_of env !! c with
                   | None =>
                       modify (set_status (mkOpcUaStatus QOpcUa.BadNotConnected))
                   | Some cl =>
                       url' <- gets m_serverUrl ;;
                       if QString_isEmpty url'
                       then modify (set_status (mkOpcUaStatus QOpcUa.BadInvalidArgument))
                       else
                         modify (set_status
                                   (mkOpcUaStatus QOpcUa.GoodCompletesAsynchronously)) ;;;
                         emit (requestEndpoints cl (QUrl_fromString url'))
                   end
               end) ;;;
              emit endpointsChanged ;;;
              emit statusChanged
          end
  end

with setConnection (fuel : nat) (connection : option OpcUaConnection) : M unit :=
  match fuel with
  | O => out_of_fuel
  | S fuel =>
      cur <- gets m_connection ;;
      if bool_decide (connection = cur) then ret tt
      else
        match connection with
        | None => ret tt
        | Some c =>
            (match cur with
             | Some old =>
                 modify (λ s, set_slots_backendChanged
                                (slots_backendChanged s ∖ {[old]}) s)
             | None => ret tt
             end) ;;;
            modify (set_connection (Some c)) ;;;
            modify (λ s, set_slots_backendChanged
                           ({[c]} ∪ slots_backendChanged s) s) ;;;
            connectSignals fuel ;;;
            emit (connectionChanged c) ;;;
            startRequestEndpoints fuel
        end
  end

with connection (fuel : nat) : M (option OpcUaConnection) :=
  match fuel with
  | O => out_of_fuel
  | S fuel =>
      cur <- gets m_connection ;;
      (match cur with
       | None => setConnection fuel (defaultConnection env)
       | Some _ => ret tt
       end) ;;;
      gets m_connection
  end

with connectSignals (fuel : nat) : M unit :=
  match fuel with
  | O => out_of_fuel
  | S fuel =>
      conn <- connection fuel ;;
      match conn with
      | None => ret tt
      | Some c =>
          match client_of env !! c with
          | None => ret tt
          | Some cl =>
              modify (λ s, set_slots_endpointsRequestFinished
                             ({[cl]} ∪ slots_endpointsRequestFinished s) s)
          end
      end
  end.

Definition setServerUrl (fuel : nat) (serverUrl : string) : M unit :=
  cur <- gets m_serverUrl ;;
  if bool_decide (serverUrl = cur) then ret tt
  else
    modify (set_serverUrl serverUrl) ;;;
    url <- gets m_serverUrl ;;
    emit (serverUrlChanged url) ;;;
    startRequestEndpoints fuel.

Definition componentComplete (fuel : nat) : M unit :=
  modify (set_componentCompleted true) ;;;
  startRequestEndpoints fuel.

End Calls.

(** The longest chain of nested calls is [startRequestEndpoints],
    [connection], [setConnection], [connectSignals], [connection]; the
    entry points below are run with [depth + n] units of fuel. *)
Definition depth : nat := 5.

(** ** Sequences of calls *)

Inductive Call :=
| call_setServerUrl (serverUrl : string)
| call_setConnection (connection : option OpcUaConnection)
| call_componentComplete
| call_startRequestEndpoints
| call_handleEndpoints (endpoints : list QOpcUaEndpointDescription)
    (statusCode : QOpcUa.UaStatusCode) (requestUrl : QUrl).

Definition call (fuel : nat) (env : Env) (c : Call) : M unit :=
  match c with
  | call_setServerUrl u => setServerUrl env fuel u
  | call_setConnection c => setConnection env fuel c
  | call_componentComplete => componentComplete env fuel
  | call_startRequestEndpoints => startRequestEndpoints env fuel
  | call_handleEndpoints eps sc url => handleEndpoints eps sc url
  end.

(** Every call comes with the collaborators' state at the time it is
    made. *)
Fixpoint run (fuel : nat) (calls : list (Env * Call)) : M unit :=
  match calls with
  | [] => ret tt
  | (env, c) :: calls => call fuel env c ;;; run fuel calls
  end.

(** ** Closed forms

    What the mutually recursive functions compute once the fuel suffices,
    written without recursion; the lemmas below relate them to the
    code. *)

(** [connectSignals] for a resolved connection [c]. *)
Definition subscribed (env : Env) (c : OpcUaConnection)
    (s : OpcUaEndpointDiscovery) : OpcUaEndpointDiscovery :=
  match client_of env !! c with
  | None => s
  | Some cl =>
      set_slots_endpointsRequestFinished
        ({[cl]} ∪ slots_endpointsRequestFinished s) s
  end.

(** [setConnection (Some c)] up to, and excluding, its [emit]. *)
Definition adopted (env : Env) (c : OpcUaConnection)
    (s : OpcUaEndpointDiscovery) : OpcUaEndpointDiscovery :=
  let s1 :=
    match m_connection s with
    | Some old => set_slots_backendChanged (slots_backendChanged s ∖ {[old]}) s
    | None => s
    end in
  let s2 := set_connection (Some c) s1 in
  let s3 := set_slots_backendChanged ({[c]} ∪ slots_backendChanged s2) s2 in
  subscribed env c s3.

(** [startRequestEndpoints] past both guards with connection [c] set. *)
Definition issued (env : Env) (c : OpcUaConnection)
    (s : OpcUaEndpointDiscovery) : OpcUaEndpointDiscovery * list Effect :=
  match client_of env !! c with
  | None =>
      (set_status (mkOpcUaStatus QOpcUa.BadNotConnected) (set_endpoints [] s),
       [endpointsChanged; statusChanged])
  | Some cl =>
      (set_status (mkOpcUaStatus QOpcUa.GoodCompletesAsynchronously)
         (set_endpoints [] s),
       [requestEndpoints cl (QUrl_fromString (m_serverUrl s));
        endpointsChanged; statusChanged])
  end.

Definition startRequestEndpoints_result (env : Env)
    (s : OpcUaEndpointDiscovery) : OpcUaEndpointDiscovery * list Effect :=
  if negb (m_componentCompleted s) then (s, [])
  else if QString_isEmpty (m_serverUrl s) then (s, [])
  else
    match m_connection s with
    | Some c => issued env c s
    | None =>
        match defaultConnection env with
        | None => (set_endpoints [] s, [])
        | Some d =>
            let r := issued env d (adopted env d (set_endpoints [] s)) in
            (r.1, connectionChanged d :: r.2)
        end
    end.

Definition setConnection_result (env : Env) (c : option OpcUaConnection)
    (s : OpcUaEndpointDiscovery) : OpcUaEndpointDiscovery * list Effect :=
  match c with
  | None => (s, [])
  | Some c' =>
      if bool_decide (c = m_connection s) then (s, [])
      else
        let r := startRequestEndpoints_result env (adopted env c' s) in
        (r.1, connectionChanged c' :: r.2)
  end.

Definition setServerUrl_result (env : Env) (serverUrl : string)
    (s : OpcUaEndpointDiscovery) : OpcUaEndpointDiscovery * list Effect :=
  if bool_decide (serverUrl = m_serverUrl s) then (s, [])
  else
    let r := startRequestEndpoints_result env (set_serverUrl serverUrl s) in
    (r.1, serverUrlChanged serverUrl :: r.2).

Definition componentComplete_result (env : Env)
    (s : OpcUaEndpointDiscovery) : OpcUaEndpointDiscovery * list Effect :=
  startRequestEndpoints_result env (set_componentCompleted true s).

Definition handleEndpoints_result
    (endpoints : list QOpcUaEndpointDescription)
    (statusCode : QOpcUa.UaStatusCode) (requestUrl : QUrl)
    (s : OpcUaEndpointDiscovery) : OpcUaEndpointDiscovery * list Effect :=
  if bool_decide (requestUrl ≠ QUrl_fromString (m_serverUrl s)) then (s, [])
  else if isBad (mkOpcUaStatus statusCode)
  then (set_status (mkOpcUaStatus statusCode) s, [statusChanged])
  else (set_endpoints endpoints (set_status (mkOpcUaStatus statusCode) s),
        [endpointsChanged; countChanged; statusChanged]).

Definition call_result (env : Env) (c : Call)
    (s : OpcUaEndpointDiscovery) : OpcUaEndpointDiscovery * list Effect :=
  match c with
  | call_setServerUrl u => setServerUrl_result env u s
  | call_setConnection c => setConnection_result env c s
  | call_componentComplete => componentComplete_result env s
  | call_startRequestEndpoints => startRequestEndpoints_result env s
  | call_handleEndpoints eps sc url => handleEndpoints_result eps sc url s
  end.

Fixpoint run_result (calls : list (Env * Call))
    (s : OpcUaEndpointDiscovery) : OpcUaEndpointDiscovery * list Effect :=
  match calls with
  | [] => (s, [])
  | (env, c) :: calls =>
      let r1 := call_result env c s in
      let r2 := run_result calls r1.1 in
      (r2.1, r1.2 ++ r2.2)
  end.

(** The connection a request would use: the one set, else the default. *)
Definition resolved (env : Env) (conn : option OpcUaConnection)
  : option OpcUaConnection :=
  match conn with
  | Some c => Some c
  | None => defaultConnection env
  end.

(** The request for target [url] over connection [conn], if one can be
    made: the target is not empty and the resolved connection has a live
    backend client. *)
Definition discovery_request (env : Env) (url : string)
    (conn : option OpcUaConnection) : list Effect :=
  if QString_isEmpty url then []
  else
    match resolved env conn with
    | None => []
    | Some c =>
        match client_of env !! c with
        | None => []
        | Some cl => [requestEndpoints cl (QUrl_fromString url)]
        end
    end.

(** ** Construction phase *)

Definition construction_call (ec : Env * Call) : Prop :=
  match ec.2 with
  | call_setServerUrl _ | call_setConnection _ => True
  | _ => False
  end.

(** The target and the connection a sequence of setter calls leaves
    behind, starting from [url] and [conn]. *)
Fixpoint final_url (url : string) (calls : list (Env * Call)) : string :=
  match calls with
  | [] => url
  | (_, call_setServerUrl u) :: calls => final_url u calls
  | _ :: calls => final_url url calls
  end.

Fixpoint final_connection (conn : option OpcUaConnection)
    (calls : list (Env * Call)) : option OpcUaConnection :=
  match calls with
  | [] => conn
  | (_, call_setConnection (Some c)) :: calls => final_connection (Some c) calls
  | _ :: calls => final_connection conn calls
  end.

(** ** Completions in a sequence of calls *)

(** The sequence [calls], run from the constructed object, contains a
    completion delivering [eps] with status [sc] whose originating
    address equals the target stored when it arrives. *)
Definition matching_completion (fuel : nat) (calls : list (Env * Call))
    (eps : list QOpcUaEndpointDescription) (sc : QOpcUa.UaStatusCode) : Prop :=
  ∃ pre env url post s0 log0,
    calls = pre ++ (env, call_handleEndpoints eps sc url) :: post
    ∧ run fuel pre constructed = Some (tt, s0, log0)
    ∧ url = QUrl_fromString (m_serverUrl s0).

(** ** Every entry point

    Besides the five calls above the object is entered through the READ
    accessor of its [connection] property, through the slot
    [connectSignals] (run by [backendChanged] of the current connection)
    and through [classBegin], which does nothing. *)

Definition classBegin : M unit := ret tt.

Inductive Member :=
| member_call (c : Call)
| member_connection
| member_connectSignals
| member_classBegin.

Definition invoke (fuel : nat) (env : Env) (m : Member) : M unit :=
  match m with
  | member_call c => call fuel env c
  | member_connection => _ <- connection env fuel ;; ret tt
  | member_connectSignals => connectSignals env fuel
  | member_classBegin => classBegin
  end.

Fixpoint run_members (fuel : nat) (ms : list (Env * Member)) : M unit :=
  match ms with
  | [] => ret tt
  | (env, m) :: ms => invoke fuel env m ;;; run_members fuel ms
  end.

Definition connection_result (env : Env) (s : OpcUaEndpointDiscovery)
  : option OpcUaConnection * OpcUaEndpointDiscovery * list Effect :=
  match m_connection s with
  | Some c => (Some c, s, [])
  | None =>
      let r := setConnection_result env (defaultConnection env) s in
      (m_connection r.1, r.1, r.2)
  end.

Definition connectSignals_result (env : Env) (s : OpcUaEndpointDiscovery)
  : OpcUaEndpointDiscovery * list Effect :=
  let r := connection_result env s in
  (match r.1.1 with
   | Some c => subscribed env c r.1.2
   | None => r.1.2
   end, r.2).

Definition invoke_result (env : Env) (m : Member)
    (s : OpcUaEndpointDiscovery) : OpcUaEndpointDiscovery * list Effect :=
  match m with
  | member_call c => call_result env c s
  | member_connection =>
      ((connection_result env s).1.2, (connection_result env s).2)
  | member_connectSignals => connectSignals_result env s
  | member_classBegin => (s, [])
  end.

Fixpoint run_members_result (ms : list (Env * Member))
    (s : OpcUaEndpointDiscovery) : OpcUaEndpointDiscovery * list Effect :=
  match ms with
  | [] => (s, [])
  | (env, m) :: ms =>
      let r1 := invoke_result env m s in
      let r2 := run_members_result ms r1.1 in
      (r2.1, r1.2 ++ r2.2)
  end.

(** The connection [c], if set, has its client's completion signal
    connected to [handleEndpoints]. *)
Definition client_subscribed (env : Env) (s : OpcUaEndpointDiscovery) : Prop :=
  ∀ c cl,
    m_connection s = Some c →
    client_of env !! c = Some cl →
    cl ∈ slots_endpointsRequestFinished s.

(** The state in which a request is under way for the stored target. *)
Definition pending (s : OpcUaEndpointDiscovery) : Prop :=
  m_componentCompleted s = true
  ∧ QString_isEmpty (m_serverUrl s) = false
  ∧ m_endpoints s = []
  ∧ m_status s = mkOpcUaStatus QOpcUa.GoodCompletesAsynchronously.

(** ** What a connected slot sees

    A slot connected to a signal of the object runs inside the [emit] and
    reads the object as it is at that moment.  The effect log above keeps
    the signals only; the observed run of [handleEndpoints] is the same
    code with every [emit] recording, beside the signal, the object as it
    is when the signal is emitted. *)

Definition Seen : Type := Effect * OpcUaEndpointDiscovery.

Definition M_seen (A : Type) : Type :=
  OpcUaEndpointDiscovery → option (A * OpcUaEndpointDiscovery * list Seen).

Definition ret_seen {A} (a : A) : M_seen A := λ s, Some (a, s, []).

Definition bind_seen {A B} (m : M_seen A) (f : A → M_seen B) : M_seen B := λ s,
  match m s with
  | None => None
  | Some (a, s1, l1) =>
      match f a s1 with
      | None => None
      | Some (b, s2, l2) => Some (b, s2, l1 ++ l2)
      end
  end.

Definition gets_seen {A} (f : OpcUaEndpointDiscovery → A) : M_seen A :=
  λ s, Some (f s, s, []).
Definition modify_seen (f : OpcUaEndpointDiscovery → OpcUaEndpointDiscovery)
  : M_seen unit :=
  λ s, Some (tt, f s, []).
Definition emit_seen (e : Effect) : M_seen unit := λ s, Some (tt, s, [(e, s)]).

Notation "x <~ m ;; k" := (bind_seen m (λ x, k))
  (at level 100, m at next level, right associativity).
Notation "m ;;~ k" := (bind_seen m (λ _, k))
  (at level 100, right associativity).

Definition handleEndpoints_seen (endpoints : list QOpcUaEndpointDescription)
    (statusCode : QOpcUa.UaStatusCode) (requestUrl : QUrl) : M_seen unit :=
  url <~ gets_seen m_serverUrl ;;
  if bool_decide (requestUrl ≠ QUrl_fromString url) then ret_seen tt
  else
    modify_seen (set_status (mkOpcUaStatus statusCode)) ;;~
    st <~ gets_seen m_status ;;
    if isBad st then emit_seen statusChanged
    else
      modify_seen (set_endpoints endpoints) ;;~
      emit_seen endpointsChanged ;;~
      emit_seen countChanged ;;~
      emit_seen statusChanged.

(** Forgetting what the slots saw leaves the effect log. *)
Definition signals_of {A}
    (r : option (A * OpcUaEndpointDiscovery * list Seen))
  : option (A * OpcUaEndpointDiscovery * list Effect) :=
  match r with
  | None => None
  | Some (a, s, l) => Some (a, s, l.*1)
  end.

(** ** Evaluating the code *)

(** A call that prepends one effect to what follows. *)
Definition after (e : Effect) {A}
    (r : option (A * OpcUaEndpointDiscovery * list Effect)) :=
  match r with
  | None => None
  | Some (a, s, l) => Some (a, s, e :: l)
  end.

Lemma bind_ret {A B} (a : A) (f : A → M B) s : bind (ret a) f s = f a s.
Proof. unfold bind, ret. by destruct (f a s) as [[[??]?]|]. Qed.

Lemma bind_gets {A B} (g : OpcUaEndpointDiscovery → A) (f : A → M B) s :
  bind (gets g) f s = f (g s) s.
Proof. unfold bind, gets. by destruct (f (g s) s) as [[[??]?]|]. Qed.

Lemma bind_modify {B} (g : OpcUaEndpointDiscovery → OpcUaEndpointDiscovery)
    (f : unit → M B) s :
  bind (modify g) f s = f tt (g s).
Proof. unfold bind, modify. by destruct (f tt (g s)) as [[[??]?]|]. Qed.

Lemma bind_emit {B} (e : Effect) (f : unit → M B) s :
  bind (emit e) f s = after e (f tt s).
Proof. unfold bind, emit, after. by destruct (f tt s) as [[[??]?]|]. Qed.

Lemma bind_assoc {A B C} (m : M A) (f : A → M B) (g : B → M C) s :
  bind (bind m f) g s = bind m (λ a, bind (f a) g) s.
Proof.
  unfold bind. destruct (m s) as [[[a s1] l1]|]; [|done].
  destruct (f a s1) as [[[b s2] l2]|]; [|done].
  destruct (g b s2) as [[[c s3] l3]|]; [|done].
  by rewrite app_assoc.
Qed.

Lemma bind_eval {A B} (m : M A) (f : A → M B) s a s1 l1 :
  m s = Some (a, s1, l1) →
  bind m f s
  = match f a s1 with
    | None => None
    | Some (b, s2, l2) => Some (b, s2, l1 ++ l2)
    end.
Proof. intros Hm. unfold bind. by rewrite Hm. Qed.

Ltac step :=
  repeat first
    [ rewrite bind_assoc | rewrite bind_ret | rewrite bind_gets
    | rewrite bind_modify | rewrite bind_emit ].

Lemma connection_set n env s c :
  m_connection s = Some c →
  connection env (S n) s = Some (Some c, s, []).
Proof.
  intros Hc. cbn [connection]. step. rewrite Hc. step.
  unfold gets. by rewrite Hc.
Qed.

Lemma connectSignals_set n env s c :
  m_connection s = Some c →
  connectSignals env (S (S n)) s = Some (tt, subscribed env c s, []).
Proof.
  intros Hc. cbn [connectSignals]. unfold subscribed.
  rewrite (bind_eval _ _ _ _ _ _ (connection_set n env s c Hc)).
  by destruct (client_of env !! c).
Qed.

Lemma startRequestEndpoints_not_completed n env s :
  m_componentCompleted s = false →
  startRequestEndpoints env (S n) s = Some (tt, s, []).
Proof. intros Hd. cbn [startRequestEndpoints]. step. by rewrite Hd. Qed.

Lemma startRequestEndpoints_empty_url n env s :
  QString_isEmpty (m_serverUrl s) = true →
  startRequestEndpoints env (S n) s = Some (tt, s, []).
Proof.
  intros Hu. cbn [startRequestEndpoints]. step.
  destruct (m_componentCompleted s); cbn [negb]; [|done].
  step. by rewrite Hu.
Qed.

Lemma startRequestEndpoints_connected n env s c :
  m_componentCompleted s = true →
  QString_isEmpty (m_serverUrl s) = false →
  m_connection s = Some c →
  startRequestEndpoints env (S (S n)) s
  = Some (tt, (issued env c s).1, (issued env c s).2).
Proof.
  intros Hd Hu Hc. cbn [startRequestEndpoints]. unfold issued.
  step. rewrite Hd. cbn [negb]. step. rewrite Hu. step.
  cbn [m_connection set_endpoints]. rewrite Hc.
  rewrite (bind_eval _ _ _ _ _ _
             (connection_set n env (set_endpoints [] s) c Hc)).
  destruct (client_of env !! c) as [cl|]; step; cbn [m_serverUrl set_endpoints];
    rewrite ?Hu; by step.
Qed.

Lemma startRequestEndpoints_set n env s c :
  m_connection s = Some c →
  startRequestEndpoints env (S (S n)) s
  = Some (tt, (startRequestEndpoints_result env s).1,
              (startRequestEndpoints_result env s).2).
Proof.
  intros Hc. unfold startRequestEndpoints_result.
  destruct (m_componentCompleted s) eqn:Hd; cbn [negb].
  - destruct (QString_isEmpty (m_serverUrl s)) eqn:Hu.
    + by apply startRequestEndpoints_empty_url.
    + rewrite Hc. by apply startRequestEndpoints_connected.
  - by apply startRequestEndpoints_not_completed.
Qed.

Lemma subscribed_frame env c s :
  m_serverUrl (subscribed env c s) = m_serverUrl s
  ∧ m_connection (subscribed env c s) = m_connection s
  ∧ m_endpoints (subscribed env c s) = m_endpoints s
  ∧ m_status (subscribed env c s) = m_status s
  ∧ m_componentCompleted (subscribed env c s) = m_componentCompleted s.
Proof. unfold subscribed. by destruct (client_of env !! c). Qed.

Lemma adopted_frame env c s :
  m_serverUrl (adopted env c s) = m_serverUrl s
  ∧ m_connection (adopted env c s) = Some c
  ∧ m_endpoints (adopted env c s) = m_endpoints s
  ∧ m_status (adopted env c s) = m_status s
  ∧ m_componentCompleted (adopted env c s) = m_componentCompleted s.
Proof.
  unfold adopted. cbn zeta.
  match goal with
  | |- context [subscribed env c ?s3] =>
      destruct (subscribed_frame env c s3) as (-> & -> & -> & -> & ->)
  end.
  by destruct (m_connection s).
Qed.

Lemma setConnection_eval n env c s :
  setConnection env (3 + n) c s
  = Some (tt, (setConnection_result env c s).1, (setConnection_result env c s).2).
Proof.
  change (3 + n)%nat with (S (S (S n))).
  cbn [setConnection]. unfold setConnection_result. step.
  destruct c as [c|]; [|by destruct (bool_decide (None = m_connection s))].
  destruct (bool_decide (Some c = m_connection s)); [done|].
  pose proof (adopted_frame env c s) as (_ & Hc & _).
  pose proof (startRequestEndpoints_set n env _ c Hc) as Hs.
  unfold adopted in Hs |- *.
  destruct (m_connection s) as [old|]; step;
    (erewrite bind_eval by (by apply connectSignals_set));
    step; by rewrite Hs.
Qed.

Lemma connection_unset n env s :
  m_connection s = None →
  connection env (4 + n) s
  = let r := setConnection_result env (defaultConnection env) s in
    Some (m_connection r.1, r.1, r.2).
Proof.
  intros Hc. change (4 + n)%nat with (S (3 + n)).
  cbn [connection]. step. rewrite Hc.
  erewrite bind_eval by apply setConnection_eval.
  unfold gets. by rewrite app_nil_r.
Qed.

Lemma startRequestEndpoints_eval n env s :
  startRequestEndpoints env (depth + n) s
  = Some (tt, (startRequestEndpoints_result env s).1,
              (startRequestEndpoints_result env s).2).
Proof.
  destruct (m_connection s) as [c|] eqn:Hc.
  { by apply (startRequestEndpoints_set (3 + n) env s c). }
  unfold depth. change (5 + n)%nat with (S (4 + n)).
  unfold startRequestEndpoints_result. rewrite Hc.
  cbn [startRequestEndpoints]. step.
  destruct (m_componentCompleted s) eqn:Hd; cbn [negb]; [|done].
  step.
  destruct (QString_isEmpty (m_serverUrl s)) eqn:Hu; [done|].
  step. cbn [m_connection set_endpoints]. rewrite Hc.
  erewrite bind_eval by (by apply connection_unset).
  unfold setConnection_result, ret.
  destruct (defaultConnection env) as [d|]; [|done].
  cbn [m_connection set_endpoints]. rewrite Hc.
  rewrite bool_decide_eq_false_2 by done.
  unfold startRequestEndpoints_result.
  destruct (adopted_frame env d (set_endpoints [] s)) as (-> & -> & _ & _ & ->).
  cbn [m_componentCompleted m_serverUrl set_endpoints].
  rewrite Hd, Hu. cbn [negb]. simpl. by rewrite app_nil_r.
Qed.

Lemma setServerUrl_eval n env u s :
  setServerUrl env (depth + n) u s
  = Some (tt, (setServerUrl_result env u s).1, (setServerUrl_result env u s).2).
Proof.
  unfold setServerUrl, setServerUrl_result. step.
  destruct (bool_decide (u = m_serverUrl s)); [done|].
  step. by rewrite startRequestEndpoints_eval.
Qed.

Lemma componentComplete_eval n env s :
  componentComplete env (depth + n) s
  = Some (tt, (componentComplete_result env s).1,
              (componentComplete_result env s).2).
Proof.
  unfold componentComplete, componentComplete_result. step.
  apply startRequestEndpoints_eval.
Qed.

Lemma handleEndpoints_eval eps sc url s :
  handleEndpoints eps sc url s
  = Some (tt, (handleEndpoints_result eps sc url s).1,
              (handleEndpoints_result eps sc url s).2).
Proof.
  unfold handleEndpoints, handleEndpoints_result. step.
  destruct (bool_decide (url ≠ QUrl_fromString (m_serverUrl s))); [done|].
  step. cbn [m_status set_status].
  destruct (isBad (mkOpcUaStatus sc)); [done|]. by step.
Qed.

Lemma call_eval n env c s :
  call (depth + n) env c s
  = Some (tt, (call_result env c s).1, (call_result env c s).2).
Proof.
  destruct c; cbn [call call_result].
  - apply setServerUrl_eval.
  - apply (setConnection_eval (2 + n)).
  - apply componentComplete_eval.
  - apply startRequestEndpoints_eval.
  - apply handleEndpoints_eval.
Qed.

Lemma run_eval n calls s :
  run (depth + n) calls s
  = Some (tt, (run_result calls s).1, (run_result calls s).2).
Proof.
  revert s. induction calls as [|[env c] calls IH]; intros s; [done|].
  cbn [run run_result].
  erewrite bind_eval by apply call_eval. by rewrite IH.
Qed.

Lemma run_result_app calls1 calls2 s :
  run_result (calls1 ++ calls2) s
  = let r1 := run_result calls1 s in
    let r2 := run_result calls2 r1.1 in
    (r2.1, r1.2 ++ r2.2).
Proof.
  revert s. induction calls1 as [|[env c] calls1 IH]; intros s.
  - simpl. by destruct (run_result calls2 s).
  - cbn [app run_result]. rewrite IH. simpl. by rewrite app_assoc.
Qed.

(** ** What the calls leave unchanged *)

Lemma isGood_not_isBad st : isGood st = true → isBad st = false.
Proof.
  unfold isBad. by intros ->.
Qed.

Lemma issued_frame env c s :
  m_serverUrl (issued env c s).1 = m_serverUrl s
  ∧ m_connection (issued env c s).1 = m_connection s
  ∧ m_componentCompleted (issued env c s).1 = m_componentCompleted s
  ∧ m_endpoints (issued env c s).1 = [].
Proof. unfold issued. by destruct (client_of env !! c). Qed.

Lemma startRequestEndpoints_result_frame env s :
  m_serverUrl (startRequestEndpoints_result env s).1 = m_serverUrl s
  ∧ m_componentCompleted (startRequestEndpoints_result env s).1
    = m_componentCompleted s
  ∧ (startRequestEndpoints_result env s = (s, [])
     ∨ m_endpoints (startRequestEndpoints_result env s).1 = []).
Proof.
  unfold startRequestEndpoints_result.
  destruct (m_componentCompleted s) eqn:Hd; cbn [negb]; [|by auto].
  destruct (QString_isEmpty (m_serverUrl s)); [by auto|].
  destruct (m_connection s) as [c|].
  - destruct (issued_frame env c s) as (-> & _ & -> & ->). auto.
  - destruct (defaultConnection env) as [d|]; [|by auto].
    cbn [fst snd].
    destruct (issued_frame env d (adopted env d (set_endpoints [] s)))
      as (-> & _ & -> & ->).
    destruct (adopted_frame env d (set_endpoints [] s)) as (-> & _ & _ & _ & ->).
    auto.
Qed.

Lemma requests_startRequestEndpoints_result env s :
  requests (startRequestEndpoints_result env s).2
  = if negb (m_componentCompleted s) then []
    else discovery_request env (m_serverUrl s) (m_connection s).
Proof.
  unfold startRequestEndpoints_result, discovery_request, resolved.
  destruct (m_componentCompleted s); cbn [negb]; [|done].
  destruct (QString_isEmpty (m_serverUrl s)); [done|].
  destruct (m_connection s) as [c|].
  - unfold issued. by destruct (client_of env !! c).
  - destruct (defaultConnection env) as [d|]; [|done].
    unfold issued. cbn [fst snd].
    destruct (adopted_frame env d (set_endpoints [] s)) as (-> & _).
    by destruct (client_of env !! d).
Qed.

Lemma discovery_request_length env url conn :
  (length (discovery_request env url conn) ≤ 1)%nat.
Proof.
  unfold discovery_request.
  destruct (QString_isEmpty url); [simpl; lia|].
  destruct (resolved env conn) as [c|]; [|simpl; lia].
  destruct (client_of env !! c); simpl; lia.
Qed.

(** A call other than an accepted completion either empties the result
    set or leaves result set and status as they were. *)
Lemma call_result_endpoints env c s :
  let r := call_result env c s in
  (∃ eps sc,
      c = call_handleEndpoints eps sc (QUrl_fromString (m_serverUrl s))
      ∧ m_status r.1 = mkOpcUaStatus sc
      ∧ (if isBad (mkOpcUaStatus sc)
         then m_endpoints r.1 = m_endpoints s
         else m_endpoints r.1 = eps))
  ∨ m_endpoints r.1 = []
  ∨ (m_endpoints r.1 = m_endpoints s ∧ m_status r.1 = m_status s).
Proof.
  destruct c as [u|c| | |eps sc url]; cbn [call_result]; cbn zeta.
  - unfold setServerUrl_result.
    destruct (bool_decide (u = m_serverUrl s)); [by auto|].
    cbn [fst].
    destruct (startRequestEndpoints_result_frame env (set_serverUrl u s))
      as (_ & _ & [-> | ->]); auto.
  - unfold setConnection_result.
    destruct c as [c|]; [|by auto].
    destruct (bool_decide (Some c = m_connection s)); [by auto|].
    cbn [fst].
    destruct (startRequestEndpoints_result_frame env (adopted env c s))
      as (_ & _ & [-> | ->]); [|by auto].
    destruct (adopted_frame env c s) as (_ & _ & He & Hs & _).
    cbn [fst]. auto.
  - unfold componentComplete_result.
    destruct (startRequestEndpoints_result_frame env
                (set_componentCompleted true s)) as (_ & _ & [-> | ->]); auto.
  - destruct (startRequestEndpoints_result_frame env s) as (_ & _ & [-> | ->]); auto.
  - unfold handleEndpoints_result.
    destruct (decide (url = QUrl_fromString (m_serverUrl s))) as [->|Hne].
    + rewrite bool_decide_eq_false_2 by auto.
      left. exists eps, sc. split; [done|].
      by destruct (isBad (mkOpcUaStatus sc)).
    + rewrite bool_decide_eq_true_2 by done. auto.
Qed.

Lemma matching_completion_app fuel calls more eps sc :
  matching_completion fuel calls eps sc →
  matching_completion fuel (calls ++ more) eps sc.
Proof.
  intros (pre & env & url & post & s0 & log0 & -> & Hrun & Hurl).
  exists pre, env, url, (post ++ more), s0, log0.
  by rewrite <- app_assoc.
Qed.

(** Where a non-empty result set comes from, and the status beside it. *)
Lemma endpoints_provenance n calls :
  let s := (run_result calls constructed).1 in
  m_endpoints s ≠ [] →
  ∃ sc,
    matching_completion (depth + n) calls (m_endpoints s) sc
    ∧ isBad (mkOpcUaStatus sc) = false
    ∧ (m_status s = mkOpcUaStatus sc
       ∨ isBad (m_status s) = true
         ∧ ∃ eps' sc', matching_completion (depth + n) calls eps' sc'
                       ∧ m_status s = mkOpcUaStatus sc').
Proof.
  induction calls as [|[env c] calls IH] using rev_ind; [done|].
  cbn zeta in *. rewrite run_result_app. cbn [run_result fst snd].
  set (s := (run_result calls constructed).1) in *.
  destruct (call_result_endpoints env c s)
    as [(eps & sc & -> & Hst & Heps) | [Hnil | [He Hs]]].
  - intros Hne.
    assert (matching_completion (depth + n)
              (calls ++ [(env, call_handleEndpoints eps sc
                                 (QUrl_fromString (m_serverUrl s)))]) eps sc) as Hmc.
    { exists calls, env, (QUrl_fromString (m_serverUrl s)), [], s,
        (run_result calls constructed).2.
      split; [done|]. split; [apply run_eval|done]. }
    destruct (isBad (mkOpcUaStatus sc)) eqn:Hbad.
    + rewrite Heps in Hne |- *. destruct (IH Hne) as (sc0 & Hmc0 & Hb0 & _).
      exists sc0. split; [by apply matching_completion_app|]. split; [done|].
      right. rewrite Hst. split; [done|]. by exists eps, sc.
    + rewrite Heps. exists sc. split; [done|]. split; [done|]. by left.
  - intros Hne. by rewrite Hnil in Hne.
  - intros Hne. rewrite He in Hne |- *. rewrite Hs.
    destruct (IH Hne) as (sc0 & Hmc0 & Hb0 & Hstatus).
    exists sc0. split; [by apply matching_completion_app|]. split; [done|].
    destruct Hstatus as [Hsame|(Hbad & eps1 & sc1 & Hmc1 & Hs1)]; [by left|].
    right. split; [done|].
    exists eps1, sc1. split; [by apply matching_completion_app|done].
Qed.

Lemma construction_phase calls s0 :
  Forall construction_call calls →
  m_componentCompleted s0 = false →
  let r := run_result calls s0 in
  m_componentCompleted r.1 = false
  ∧ requests r.2 = []
  ∧ m_serverUrl r.1 = final_url (m_serverUrl s0) calls
  ∧ m_connection r.1 = final_connection (m_connection s0) calls.
Proof.
  intros Hall. revert s0.
  induction Hall as [|[env c] calls Hc Hall IH]; intros s0 Hd; [done|].
  cbn [run_result final_url final_connection]. cbn zeta.
  assert (∀ s, m_componentCompleted s = false →
               startRequestEndpoints_result env s = (s, [])) as Hsre.
  { intros s Hs. unfold startRequestEndpoints_result. by rewrite Hs. }
  destruct c as [u|c| | |]; try done; cbn [call_result].
  - unfold setServerUrl_result.
    destruct (decide (u = m_serverUrl s0)) as [->|Hne].
    + rewrite bool_decide_eq_true_2 by done. by apply IH.
    + rewrite bool_decide_eq_false_2 by done.
      rewrite Hsre by done. cbn [fst snd].
      by destruct (IH (set_serverUrl u s0) Hd) as (? & ? & ? & ?).
  - unfold setConnection_result.
    destruct c as [c|]; [|by apply IH].
    destruct (decide (Some c = m_connection s0)) as [Heq|Hne].
    + rewrite bool_decide_eq_true_2 by done. rewrite Heq. by apply IH.
    + rewrite bool_decide_eq_false_2 by done.
      destruct (adopted_frame env c s0) as (Hu & Hconn & _ & _ & Hdone).
      rewrite Hsre by congruence. cbn [fst snd].
      rewrite <- Hu, <- Hconn.
      assert (m_componentCompleted (adopted env c s0) = false) as Hd'
        by congruence.
      by destruct (IH (adopted env c s0) Hd') as (? & ? & ? & ?).
Qed.

(** ** The accessor [at] *)

Lemma at_in_range s row :
  0 ≤ row < count s →
  at_ s row = m_endpoints s !! Z.to_nat row
  ∧ is_Some (m_endpoints s !! Z.to_nat row).
Proof.
  unfold at_, QVector_at, count. intros Hr.
  rewrite bool_decide_eq_false_2 by lia.
  rewrite bool_decide_eq_true_2 by lia.
  split; [done|]. apply lookup_lt_is_Some. lia.
Qed.

Lemma at_beyond s row :
  count s ≤ row → at_ s row = Some QOpcUaEndpointDescription_default.
Proof.
  unfold at_. intros Hr. by rewrite bool_decide_eq_true_2 by lia.
Qed.

Lemma at_below_zero s row : row < 0 → at_ s row = None.
Proof.
  unfold at_, QVector_at, count. intros Hr.
  rewrite bool_decide_eq_false_2 by lia.
  by rewrite bool_decide_eq_false_2 by lia.
Qed.

(** C4 (defect).  [at] compares the row with the upper bound only: for
    row -1 it passes the guard whatever the result set holds and reaches
    [QVector::at] outside its range, instead of returning the invalid
    endpoint description. *)
Theorem at_minus_one_out_of_range (s : OpcUaEndpointDiscovery) :
  at_ s (-1) = None
  ∧ at_ s (-1) ≠ Some QOpcUaEndpointDescription_default.
Proof. by rewrite at_below_zero by lia. Qed.

(** ** Completions *)

Lemma handleEndpoints_accepted eps sc s :
  isBad (mkOpcUaStatus sc) = false →
  handleEndpoints eps sc (QUrl_fromString (m_serverUrl s)) s
  = Some (tt, set_endpoints eps (set_status (mkOpcUaStatus sc) s),
          [endpointsChanged; countChanged; statusChanged]).
Proof.
  intros Hb. rewrite handleEndpoints_eval. unfold handleEndpoints_result.
  rewrite bool_decide_eq_false_2 by auto. by rewrite Hb.
Qed.

(** C3.  A completion whose originating address differs from the target
    stored when it arrives is discarded: the object stays exactly as it
    was (result set, status, target, connection and all) and nothing is
    emitted, whatever result list and status code it carries. *)
Theorem handleEndpoints_stale eps sc url (s : OpcUaEndpointDiscovery) :
  url ≠ QUrl_fromString (m_serverUrl s) →
  handleEndpoints eps sc url s = Some (tt, s, []).
Proof.
  intros Hne. rewrite handleEndpoints_eval. unfold handleEndpoints_result.
  by rewrite bool_decide_eq_true_2.
Qed.

(** The observed run and the plain one are the same code: on every
    input they end in the same state with the same signals. *)
Lemma handleEndpoints_seen_signals eps sc url s :
  signals_of (handleEndpoints_seen eps sc url s) = handleEndpoints eps sc url s.
Proof.
  rewrite handleEndpoints_eval.
  unfold handleEndpoints_seen, handleEndpoints_result, bind_seen, gets_seen,
    modify_seen, emit_seen, ret_seen.
  simpl.
  destruct (bool_decide (url ≠ QUrl_fromString (m_serverUrl s))); [done|].
  simpl. by destruct (isBad (mkOpcUaStatus sc)).
Qed.

(** C6.  A completion for the current target whose status is good
    replaces the result set by the delivered list as a whole, and then
    emits exactly endpointsChanged, countChanged, statusChanged, in that
    order: at each of the three signals a connected slot already sees the
    object in its final state, with the delivered list and the status
    stored. *)
Theorem handleEndpoints_good eps sc url (s : OpcUaEndpointDiscovery) :
  url = QUrl_fromString (m_serverUrl s) →
  isGood (mkOpcUaStatus sc) = true →
  ∃ s', handleEndpoints eps sc url s
        = Some (tt, s', [endpointsChanged; countChanged; statusChanged])
    ∧ m_endpoints s' = eps
    ∧ s' = set_endpoints eps (set_status (mkOpcUaStatus sc) s)
    ∧ handleEndpoints_seen eps sc url s
      = Some (tt, s',
              [(endpointsChanged, s'); (countChanged, s'); (statusChanged, s')]).
Proof.
  intros -> Hg%isGood_not_isBad.
  exists (set_endpoints eps (set_status (mkOpcUaStatus sc) s)).
  split; [by apply handleEndpoints_accepted|]. split; [done|]. split; [done|].
  unfold handleEndpoints_seen, bind_seen, gets_seen, modify_seen, emit_seen.
  simpl. rewrite bool_decide_eq_false_2 by auto. simpl. by rewrite Hg.
Qed.



(** C10.  The test that admits a completion for the current target is
    "not bad": every status code that is not bad, good or not, stores
    the delivered list and the status and emits the full sequence of
    three notifications. *)
Theorem handleEndpoints_not_bad eps sc url (s : OpcUaEndpointDiscovery) :
  url = QUrl_fromString (m_serverUrl s) →
  isBad (mkOpcUaStatus sc) = false →
  ∃ s', handleEndpoints eps sc url s
        = Some (tt, s', [endpointsChanged; countChanged; statusChanged])
    ∧ m_endpoints s' = eps
    ∧ m_status s' = mkOpcUaStatus sc.
Proof.
  intros -> Hb.
  exists (set_endpoints eps (set_status (mkOpcUaStatus sc) s)).
  split; [by apply handleEndpoints_accepted|done].
Qed.

(** ** Starting a request *)

(** C2, amended.  With an empty target [startRequestEndpoints] returns at
    its guard: status, result set and everything else stay as they were,
    nothing is emitted and no request is sent. *)
Theorem startRequestEndpoints_empty_target n env (s : OpcUaEndpointDiscovery) :
  m_serverUrl s = "" →
  startRequestEndpoints env (depth + n) s = Some (tt, s, []).
Proof.
  intros Hu. apply startRequestEndpoints_empty_url. by rewrite Hu.
Qed.

(** C8, amended.  Past both guards, an invocation with a connection set
    emits the request, if the connection has a client, and then ends with
    endpointsChanged, statusChanged, and nothing else.  With no connection
    set the invocation emits nothing of its own: without a default
    connection it clears the result set and returns silently; with one,
    its effects are connectionChanged, emitted by the adoption, followed
    by exactly the effects of the invocation nested in that signal, which
    runs on the object with the connection adopted and ends with the two
    notifications. *)
Theorem startRequestEndpoints_notifications n env (s : OpcUaEndpointDiscovery) :
  m_componentCompleted s = true →
  QString_isEmpty (m_serverUrl s) = false →
  ∃ s' log,
    startRequestEndpoints env (depth + n) s = Some (tt, s', log)
    ∧ match m_connection s, defaultConnection env with
      | Some c, _ =>
          log = match client_of env !! c with
                | Some cl =>
                    [requestEndpoints cl (QUrl_fromString (m_serverUrl s));
                     endpointsChanged; statusChanged]
                | None => [endpointsChanged; statusChanged]
                end
      | None, Some d =>
          ∃ nested,
            log = connectionChanged d :: nested
            ∧ startRequestEndpoints env (depth + n)
                (adopted env d (set_endpoints [] s))
              = Some (tt, s', nested)
            ∧ nested
              = match client_of env !! d with
                | Some cl =>
                    [requestEndpoints cl (QUrl_fromString (m_serverUrl s));
                     endpointsChanged; statusChanged]
                | None => [endpointsChanged; statusChanged]
                end
      | None, None => log = [] ∧ s' = set_endpoints [] s
      end.
Proof.
  intros Hd Hu. rewrite startRequestEndpoints_eval.
  assert (startRequestEndpoints_result env s
          = match m_connection s with
            | Some c => issued env c s
            | None =>
                match defaultConnection env with
                | None => (set_endpoints [] s, [])
                | Some d =>
                    ((issued env d (adopted env d (set_endpoints [] s))).1,
                     connectionChanged d
                     :: (issued env d (adopted env d (set_endpoints [] s))).2)
                end
            end) as Hres.
  { unfold startRequestEndpoints_result. by rewrite Hd, Hu. }
  eexists _, _. split; [done|]. rewrite Hres.
  destruct (m_connection s) as [c|] eqn:Hc.
  - unfold issued. by destruct (client_of env !! c).
  - destruct (defaultConnection env) as [d|]; [|done]. cbn [fst snd].
    destruct (adopted_frame env d (set_endpoints [] s))
      as (Hu' & Hc' & _ & _ & Hd').
    cbn [m_serverUrl m_componentCompleted set_endpoints] in Hu', Hd'.
    exists (issued env d (adopted env d (set_endpoints [] s))).2.
    split; [done|]. split.
    + rewrite startRequestEndpoints_eval. unfold startRequestEndpoints_result.
      by rewrite Hd', Hd, Hu', Hu, Hc'.
    + unfold issued. rewrite Hu'. by destruct (client_of env !! d).
Qed.

(** ** Setting the target *)

(** C7, amended.  [setServerUrl] with the stored address changes nothing,
    emits nothing and requests nothing; so setting an address twice in a
    row leaves the state and the effects of setting it once, and the
    requests of the pair are those of the first call: never two, exactly
    one when the object is ready for a request (construction complete, a
    new non-empty address, a resolved connection with a live client), and
    none otherwise. *)
Theorem setServerUrl_unchanged n env (s : OpcUaEndpointDiscovery) :
  setServerUrl env (depth + n) (m_serverUrl s) s = Some (tt, s, [])
  ∧ ∀ a env2, ∃ s1 log1,
      setServerUrl env (depth + n) a s = Some (tt, s1, log1)
      ∧ run (depth + n)
          [(env, call_setServerUrl a); (env2, call_setServerUrl a)] s
        = Some (tt, s1, log1)
      ∧ requests log1
        = (if bool_decide (a = m_serverUrl s) then []
           else if negb (m_componentCompleted s) then []
           else discovery_request env a (m_connection s))
      ∧ (length (requests log1) ≤ 1)%nat
      ∧ ∀ c cl,
          a ≠ m_serverUrl s →
          m_componentCompleted s = true →
          QString_isEmpty a = false →
          resolved env (m_connection s) = Some c →
          client_of env !! c = Some cl →
          requests log1 = [requestEndpoints cl (QUrl_fromString a)].
Proof.
  assert (∀ env' s', setServerUrl env' (depth + n) (m_serverUrl s') s'
                     = Some (tt, s', [])) as Hnoop.
  { intros env' s'. rewrite setServerUrl_eval. unfold setServerUrl_result.
    by rewrite bool_decide_eq_true_2. }
  split; [apply Hnoop|]. intros a env2.
  assert (m_serverUrl (setServerUrl_result env a s).1 = a) as Hurl.
  { unfold setServerUrl_result.
    destruct (decide (a = m_serverUrl s)) as [->|Hne].
    - by rewrite bool_decide_eq_true_2.
    - rewrite bool_decide_eq_false_2 by done. cbn [fst].
      by destruct (startRequestEndpoints_result_frame env (set_serverUrl a s))
        as (-> & _). }
  assert (requests (setServerUrl_result env a s).2
          = (if bool_decide (a = m_serverUrl s) then []
             else if negb (m_componentCompleted s) then []
             else discovery_request env a (m_connection s))) as Hreq.
  { unfold setServerUrl_result.
    destruct (bool_decide (a = m_serverUrl s)); [done|].
    cbn [snd]. change (requests (serverUrlChanged a :: ?l)) with (requests l).
    by rewrite requests_startRequestEndpoints_result. }
  eexists _, _. split; [apply setServerUrl_eval|].
  split; [|split; [exact Hreq|split]].
  - cbn [run call]. erewrite bind_eval by apply setServerUrl_eval.
    pose proof (Hnoop env2 (setServerUrl_result env a s).1) as Hn.
    rewrite Hurl in Hn.
    erewrite bind_eval by exact Hn.
    unfold ret. by rewrite !app_nil_r.
  - rewrite Hreq.
    destruct (bool_decide (a = m_serverUrl s)); [simpl; lia|].
    destruct (negb (m_componentCompleted s)); [simpl; lia|].
    apply discovery_request_length.
  - intros c cl Hne Hd Hu Hc Hcl. rewrite Hreq.
    rewrite bool_decide_eq_false_2 by done. rewrite Hd. cbn [negb].
    unfold discovery_request. by rewrite Hu, Hc, Hcl.
Qed.

(** ** Construction *)

(** C5, amended.  Calls of [setServerUrl] and [setConnection] made before
    [componentComplete] send no request and leave the last target and the
    last connection set.  [componentComplete] then sends at most one
    request: exactly one, for that target on the client of that
    connection (or of the default connection when none was set), when the
    target is not empty and that connection has a live client; none
    otherwise. *)
Theorem construction_defers_request n calls env :
  Forall construction_call calls →
  ∃ s log,
    run (depth + n) calls constructed = Some (tt, s, log)
    ∧ requests log = []
    ∧ m_serverUrl s = final_url "" calls
    ∧ m_connection s = final_connection None calls
    ∧ ∃ s' log',
        componentComplete env (depth + n) s = Some (tt, s', log')
        ∧ requests log'
          = discovery_request env (final_url "" calls)
              (final_connection None calls)
        ∧ (length (requests log') ≤ 1)%nat.
Proof.
  intros Hall.
  destruct (construction_phase calls constructed Hall eq_refl)
    as (Hd & Hreq & Hu & Hc).
  eexists _, _. split; [apply run_eval|].
  split; [done|]. split; [done|]. split; [done|].
  eexists _, _. split; [apply componentComplete_eval|].
  unfold componentComplete_result.
  rewrite requests_startRequestEndpoints_result.
  cbn [m_componentCompleted m_serverUrl m_connection set_componentCompleted negb].
  rewrite Hu, Hc. split; [done|]. apply discovery_request_length.
Qed.

(** ** The result set and the status *)

(** C1, amended.  Every sequence of calls runs to a state, and in every
    state so reached from the constructed object a non-empty result set is
    the list delivered by a completion of the sequence that matched the
    target on arrival and carried a status that is not bad; the status
    beside it is that very code, or else it is bad and is the code of a
    matching completion of the sequence. *)
Theorem nonempty_endpoints_origin n calls :
  ∃ (s : OpcUaEndpointDiscovery) log,
    run (depth + n) calls constructed = Some (tt, s, log)
    ∧ (m_endpoints s ≠ [] →
       ∃ sc,
         matching_completion (depth + n) calls (m_endpoints s) sc
         ∧ isBad (mkOpcUaStatus sc) = false
         ∧ (m_status s = mkOpcUaStatus sc
            ∨ isBad (m_status s) = true
              ∧ ∃ eps' sc', matching_completion (depth + n) calls eps' sc'
                            ∧ m_status s = mkOpcUaStatus sc')).
Proof.
  eexists _, _. split; [apply run_eval|]. apply endpoints_provenance.
Qed.

(** ** The remaining entry points *)

Lemma connection_eval n env s :
  connection env (4 + n) s
  = Some ((connection_result env s).1.1, (connection_result env s).1.2,
          (connection_result env s).2).
Proof.
  unfold connection_result. destruct (m_connection s) as [c|] eqn:Hc.
  - by apply (connection_set (3 + n)).
  - by rewrite connection_unset.
Qed.

Lemma connectSignals_eval n env s :
  connectSignals env (depth + n) s
  = Some (tt, (connectSignals_result env s).1, (connectSignals_result env s).2).
Proof.
  unfold depth. change (5 + n)%nat with (S (4 + n)).
  cbn [connectSignals]. erewrite bind_eval by apply connection_eval.
  unfold connectSignals_result.
  destruct (connection_result env s) as [[[c|] s1] l1]; cbn [fst snd].
  - unfold subscribed, modify, ret.
    destruct (client_of env !! c); by rewrite app_nil_r.
  - unfold ret. by rewrite app_nil_r.
Qed.

Lemma invoke_eval n env m s :
  invoke (depth + n) env m s
  = Some (tt, (invoke_result env m s).1, (invoke_result env m s).2).
Proof.
  destruct m as [c| | |]; cbn [invoke invoke_result].
  - apply call_eval.
  - erewrite bind_eval by apply (connection_eval (1 + n)).
    unfold ret. by rewrite app_nil_r.
  - apply connectSignals_eval.
  - done.
Qed.

Lemma run_members_eval n ms s :
  run_members (depth + n) ms s
  = Some (tt, (run_members_result ms s).1, (run_members_result ms s).2).
Proof.
  revert s. induction ms as [|[env m] ms IH]; intros s; [done|].
  cbn [run_members run_members_result].
  erewrite bind_eval by apply invoke_eval. by rewrite IH.
Qed.

(** ** Requests and the state they leave *)

Lemma requests_app l1 l2 : requests (l1 ++ l2) = requests l1 ++ requests l2.
Proof. unfold requests. induction l1 as [|e l1 IH]; [done|]. simpl. destruct (is_request e); simpl; by rewrite IH. Qed.

Lemma issued_requests env c s :
  m_componentCompleted s = true →
  QString_isEmpty (m_serverUrl s) = false →
  m_connection s = Some c →
  requests (issued env c s).2 = []
  ∨ ∃ cl,
      client_of env !! c = Some cl
      ∧ requests (issued env c s).2
        = [requestEndpoints cl (QUrl_fromString (m_serverUrl s))]
      ∧ pending (issued env c s).1.
Proof.
  intros Hd Hu Hc. unfold issued.
  destruct (client_of env !! c) as [cl|]; [|by left].
  right. exists cl. by repeat split.
Qed.

(** What [startRequestEndpoints] sends: nothing, or one request for the
    stored target to the client of the connection it ends with, leaving
    the object pending. *)
Lemma startRequestEndpoints_result_requests env s :
  requests (startRequestEndpoints_result env s).2 = []
  ∨ ∃ c cl,
      m_connection (startRequestEndpoints_result env s).1 = Some c
      ∧ client_of env !! c = Some cl
      ∧ requests (startRequestEndpoints_result env s).2
        = [requestEndpoints cl
             (QUrl_fromString
                (m_serverUrl (startRequestEndpoints_result env s).1))]
      ∧ pending (startRequestEndpoints_result env s).1.
Proof.
  unfold startRequestEndpoints_result.
  destruct (m_componentCompleted s) eqn:Hd; cbn [negb]; [|by left].
  destruct (QString_isEmpty (m_serverUrl s)) eqn:Hu; [by left|].
  destruct (m_connection s) as [c|] eqn:Hc.
  - destruct (issued_requests env c s Hd Hu Hc) as [Hn|(cl & Hcl & Hr & Hp)];
      [by left|].
    right. exists c, cl.
    destruct (issued_frame env c s) as (-> & -> & _). by rewrite Hr.
  - destruct (defaultConnection env) as [d|]; [|by left]. cbn [fst snd].
    destruct (adopted_frame env d (set_endpoints [] s))
      as (Hu' & Hc' & _ & _ & Hd').
    cbn [m_serverUrl m_componentCompleted set_endpoints] in Hu', Hd'.
    destruct (issued_requests env d (adopted env d (set_endpoints [] s)))
      as [Hn|(cl & Hcl & Hr & Hp)]; [congruence..| |].
    + left. exact Hn.
    + right. exists d, cl.
      destruct (issued_frame env d (adopted env d (set_endpoints [] s)))
        as (-> & -> & _).
      split; [done|]. split; [done|]. split; [|done].
      change (requests (connectionChanged d :: ?l)) with (requests l).
      exact Hr.
Qed.

Lemma startRequestEndpoints_result_connection env s c :
  m_connection s = Some c →
  m_connection (startRequestEndpoints_result env s).1 = Some c.
Proof.
  intros Hc. unfold startRequestEndpoints_result.
  destruct (negb (m_componentCompleted s)); [done|].
  destruct (QString_isEmpty (m_serverUrl s)); [done|].
  rewrite Hc. by destruct (issued_frame env c s) as (_ & -> & _).
Qed.

Lemma setConnection_result_connection env c s :
  m_connection (setConnection_result env (Some c) s).1 = Some c.
Proof.
  unfold setConnection_result.
  destruct (decide (Some c = m_connection s)) as [Heq|Hne].
  - by rewrite bool_decide_eq_true_2.
  - rewrite bool_decide_eq_false_2 by done. cbn [fst].
    apply startRequestEndpoints_result_connection.
    by destruct (adopted_frame env c s) as (_ & -> & _).
Qed.

Lemma setServerUrl_result_url env u s :
  m_serverUrl (setServerUrl_result env u s).1 = u.
Proof.
  unfold setServerUrl_result.
  destruct (decide (u = m_serverUrl s)) as [->|Hne].
  - by rewrite bool_decide_eq_true_2.
  - rewrite bool_decide_eq_false_2 by done. cbn [fst].
    by destruct (startRequestEndpoints_result_frame env (set_serverUrl u s))
      as (-> & _).
Qed.

Lemma pending_subscribed env c s : pending s → pending (subscribed env c s).
Proof.
  unfold pending.
  by destruct (subscribed_frame env c s) as (-> & _ & -> & -> & ->).
Qed.

Lemma invoke_result_requests env m s :
  requests (invoke_result env m s).2 = []
  ∨ ∃ c cl,
      m_connection (invoke_result env m s).1 = Some c
      ∧ client_of env !! c = Some cl
      ∧ requests (invoke_result env m s).2
        = [requestEndpoints cl
             (QUrl_fromString (m_serverUrl (invoke_result env m s).1))]
      ∧ pending (invoke_result env m s).1.
Proof.
  assert (∀ c', requests (setConnection_result env c' s).2 = []
    ∨ ∃ c cl,
        m_connection (setConnection_result env c' s).1 = Some c
        ∧ client_of env !! c = Some cl
        ∧ requests (setConnection_result env c' s).2
          = [requestEndpoints cl
               (QUrl_fromString (m_serverUrl (setConnection_result env c' s).1))]
        ∧ pending (setConnection_result env c' s).1) as Hset.
  { intros c'. unfold setConnection_result.
    destruct c' as [c'|]; [|by left].
    destruct (bool_decide (Some c' = m_connection s)); [by left|].
    cbn [fst snd]. change (requests (connectionChanged c' :: ?l)) with (requests l).
    apply startRequestEndpoints_result_requests. }
  destruct m as [[u|c'| | |eps sc url]| | |]; cbn [invoke_result call_result].
  - unfold setServerUrl_result.
    destruct (bool_decide (u = m_serverUrl s)); [by left|].
    cbn [fst snd]. change (requests (serverUrlChanged u :: ?l)) with (requests l).
    apply startRequestEndpoints_result_requests.
  - apply Hset.
  - apply startRequestEndpoints_result_requests.
  - apply startRequestEndpoints_result_requests.
  - left. unfold handleEndpoints_result.
    destruct (bool_decide _); [done|]. by destruct (isBad _).
  - unfold connection_result.
    destruct (m_connection s); [by left|]. cbn [fst snd]. apply Hset.
  - unfold connectSignals_result, connection_result.
    destruct (m_connection s) as [c|] eqn:Hc; [by left|]. cbn [fst snd].
    destruct (Hset (defaultConnection env)) as [Hn|(c & cl & Hc' & Hcl & Hr & Hp)];
      [by left|].
    right. exists c, cl. rewrite Hc'.
    destruct (subscribed_frame env c (setConnection_result env (defaultConnection env) s).1)
      as (-> & -> & _).
    split; [done|]. split; [done|]. split; [done|]. by apply pending_subscribed.
  - by left.
Qed.

(** ** Properties kept by every entry point *)

(** A property of the object that the field updates of the code keep is
    kept by every entry point. *)
Lemma invoke_result_preserves (P : OpcUaEndpointDiscovery → Prop) env :
  (∀ u s, P s → P (set_serverUrl u s)) →
  (∀ s, P s → P (set_componentCompleted true s)) →
  (∀ l s, P s → P (set_endpoints l s)) →
  (∀ st s, P s → P (set_status st s)) →
  (∀ c s, P s → P (adopted env c s)) →
  (∀ c s, P s → P (subscribed env c s)) →
  ∀ m s, P s → P (invoke_result env m s).1.
Proof.
  intros Hurl Hdone Heps Hst Had Hsub.
  assert (∀ s, P s → P (startRequestEndpoints_result env s).1) as Hsre.
  { intros s Hs. unfold startRequestEndpoints_result.
    destruct (negb (m_componentCompleted s)); [done|].
    destruct (QString_isEmpty (m_serverUrl s)); [done|].
    assert (∀ c s0, P s0 → P (issued env c s0).1) as Hiss.
    { intros c s0 Hs0. unfold issued.
      destruct (client_of env !! c); cbn [fst]; by apply Hst, Heps. }
    destruct (m_connection s) as [c|]; [by apply Hiss|].
    destruct (defaultConnection env) as [d|]; cbn [fst].
    - by apply Hiss, Had, Heps.
    - by apply Heps. }
  assert (∀ c s, P s → P (setConnection_result env c s).1) as Hset.
  { intros c s Hs. unfold setConnection_result.
    destruct c as [c|]; [|done].
    destruct (bool_decide (Some c = m_connection s)); [done|].
    cbn [fst]. by apply Hsre, Had. }
  assert (∀ s, P s → P (connection_result env s).1.2) as Hconn.
  { intros s Hs. unfold connection_result.
    destruct (m_connection s); [done|]. cbn [fst snd]. by apply Hset. }
  intros m s Hs.
  destruct m as [[u|c| | |eps sc url]| | |]; cbn [invoke_result call_result fst].
  - unfold setServerUrl_result.
    destruct (bool_decide (u = m_serverUrl s)); [done|].
    cbn [fst]. by apply Hsre, Hurl.
  - by apply Hset.
  - by apply Hsre, Hdone.
  - by apply Hsre.
  - unfold handleEndpoints_result.
    destruct (bool_decide _); [done|].
    destruct (isBad _); cbn [fst]; [by apply Hst|by apply Heps, Hst].
  - by apply Hconn.
  - unfold connectSignals_result. cbn [fst].
    specialize (Hconn s Hs).
    destruct ((connection_result env s).1.1); [by apply Hsub|done].
  - done.
Qed.

(** ** Outcomes of a started request *)

Lemma startRequestEndpoints_result_resolved env s c :
  m_componentCompleted s = true →
  QString_isEmpty (m_serverUrl s) = false →
  resolved env (m_connection s) = Some c →
  ∃ s0 pre,
    startRequestEndpoints_result env s
    = ((issued env c s0).1, pre ++ (issued env c s0).2)
    ∧ requests pre = []
    ∧ m_serverUrl s0 = m_serverUrl s
    ∧ m_componentCompleted s0 = true
    ∧ m_connection s0 = Some c.
Proof.
  intros Hd Hu Hr. unfold startRequestEndpoints_result, resolved in *.
  rewrite Hd, Hu. cbn [negb].
  destruct (m_connection s) as [c0|] eqn:Hc.
  - injection Hr as ->. exists s, []. by destruct (issued env c s).
  - rewrite Hr.
    destruct (adopted_frame env c (set_endpoints [] s)) as (Hu' & Hc' & _ & _ & Hd').
    exists (adopted env c (set_endpoints [] s)), [connectionChanged c].
    split; [done|]. split; [done|]. split; [done|]. split; [|done].
    by rewrite Hd'.
Qed.

(** X1.  Past both guards, when the connection that resolves (the one set,
    else the default one) has no backend client, the status becomes
    BadNotConnected, the result set is empty, no request is sent, and the
    call ends with endpointsChanged, statusChanged. *)
Theorem startRequestEndpoints_not_connected n env (s : OpcUaEndpointDiscovery) c :
  m_componentCompleted s = true →
  QString_isEmpty (m_serverUrl s) = false →
  resolved env (m_connection s) = Some c →
  client_of env !! c = None →
  ∃ s' log,
    startRequestEndpoints env (depth + n) s = Some (tt, s', log)
    ∧ m_status s' = mkOpcUaStatus QOpcUa.BadNotConnected
    ∧ m_endpoints s' = []
    ∧ m_connection s' = Some c
    ∧ requests log = []
    ∧ ∃ pre, log = pre ++ [endpointsChanged; statusChanged].
Proof.
  intros Hd Hu Hr Hcl. rewrite startRequestEndpoints_eval.
  destruct (startRequestEndpoints_result_resolved env s c Hd Hu Hr)
    as (s0 & pre & -> & Hpre & _ & _ & Hc0).
  eexists _, _. split; [done|]. cbn [fst snd].
  unfold issued. rewrite Hcl. cbn [fst snd m_status m_endpoints m_connection
    set_status set_endpoints].
  repeat split; try done.
  - rewrite requests_app, Hpre. done.
  - by exists pre.
Qed.

(** X2.  Past both guards, when the connection that resolves has a backend
    client, exactly one request is handed to that client, for the stored
    target, the status becomes GoodCompletesAsynchronously with an empty
    result set, and the request is followed by endpointsChanged,
    statusChanged. *)
Theorem startRequestEndpoints_pending n env (s : OpcUaEndpointDiscovery) c cl :
  m_componentCompleted s = true →
  QString_isEmpty (m_serverUrl s) = false →
  resolved env (m_connection s) = Some c →
  client_of env !! c = Some cl →
  ∃ s' pre,
    startRequestEndpoints env (depth + n) s
    = Some (tt, s',
            pre ++ [requestEndpoints cl (QUrl_fromString (m_serverUrl s));
                    endpointsChanged; statusChanged])
    ∧ requests pre = []
    ∧ pending s'
    ∧ m_connection s' = Some c
    ∧ m_serverUrl s' = m_serverUrl s.
Proof.
  intros Hd Hu Hr Hcl. rewrite startRequestEndpoints_eval.
  destruct (startRequestEndpoints_result_resolved env s c Hd Hu Hr)
    as (s0 & pre & -> & Hpre & Hu0 & Hd0 & Hc0).
  exists (issued env c s0).1, pre. cbn [fst snd].
  unfold issued, pending. rewrite Hcl. cbn [fst snd m_status m_endpoints
    m_connection m_serverUrl m_componentCompleted set_status set_endpoints].
  rewrite Hu0, Hu. by repeat split.
Qed.

(** X3.  Past both guards [startRequestEndpoints] empties the result set
    in every branch, also the silent one: afterwards [count] is 0 and [at]
    returns the invalid description for every row from 0 on. *)
Theorem startRequestEndpoints_clears n env (s : OpcUaEndpointDiscovery) :
  m_componentCompleted s = true →
  QString_isEmpty (m_serverUrl s) = false →
  ∃ s' log,
    startRequestEndpoints env (depth + n) s = Some (tt, s', log)
    ∧ m_endpoints s' = []
    ∧ count s' = 0
    ∧ ∀ row, 0 ≤ row →
        at_ s' row = Some QOpcUaEndpointDescription_default.
Proof.
  intros Hd Hu. rewrite startRequestEndpoints_eval.
  eexists _, _. split; [done|].
  assert (m_endpoints (startRequestEndpoints_result env s).1 = []) as He.
  { unfold startRequestEndpoints_result. rewrite Hd, Hu. cbn [negb].
    destruct (m_connection s) as [c|].
    - by destruct (issued_frame env c s) as (_ & _ & _ & ->).
    - destruct (defaultConnection env) as [d|]; [|done]. cbn [fst].
      by destruct (issued_frame env d (adopted env d (set_endpoints [] s)))
        as (_ & _ & _ & ->). }
  split; [done|]. split; [unfold count; by rewrite He|].
  intros row Hrow. apply at_beyond. unfold count. rewrite He. simpl. lia.
Qed.

(** ** Reading a delivered result *)

(** X4.  After a completion for the current target whose status is not
    bad, [count] is the length of the delivered list, [at] returns its
    i-th record for every position of the list and the invalid description
    for every row from the length on. *)
Theorem handleEndpoints_then_at eps sc (s : OpcUaEndpointDiscovery) :
  isBad (mkOpcUaStatus sc) = false →
  ∃ s' log,
    handleEndpoints eps sc (QUrl_fromString (m_serverUrl s)) s
    = Some (tt, s', log)
    ∧ count s' = Z.of_nat (length eps)
    ∧ (∀ i e, eps !! i = Some e → at_ s' (Z.of_nat i) = Some e)
    ∧ (∀ row, Z.of_nat (length eps) ≤ row →
         at_ s' row = Some QOpcUaEndpointDescription_default).
Proof.
  intros Hb. rewrite handleEndpoints_accepted by done.
  eexists _, _. split; [done|].
  set (s' := set_endpoints eps (set_status (mkOpcUaStatus sc) s)).
  assert (count s' = Z.of_nat (length eps)) as Hcount by done.
  split; [done|]. split.
  - intros i e He. pose proof (lookup_lt_Some _ _ _ He) as Hlt.
    destruct (at_in_range s' (Z.of_nat i)) as [-> _]; [rewrite Hcount; lia|].
    by rewrite Nat2Z.id.
  - intros row Hrow. apply at_beyond. by rewrite Hcount.
Qed.

(** X5.  A completion, accepted or not, leaves the target, the connection,
    the construction flag and the signal connections as they were, sends
    no request, and emits nothing, or statusChanged alone, or
    endpointsChanged, countChanged, statusChanged. *)
Theorem handleEndpoints_frame eps sc url (s : OpcUaEndpointDiscovery) :
  ∃ s' log,
    handleEndpoints eps sc url s = Some (tt, s', log)
    ∧ m_serverUrl s' = m_serverUrl s
    ∧ m_connection s' = m_connection s
    ∧ m_componentCompleted s' = m_componentCompleted s
    ∧ slots_backendChanged s' = slots_backendChanged s
    ∧ slots_endpointsRequestFinished s' = slots_endpointsRequestFinished s
    ∧ requests log = []
    ∧ (log = [] ∨ log = [statusChanged]
       ∨ log = [endpointsChanged; countChanged; statusChanged]).
Proof.
  rewrite handleEndpoints_eval. eexists _, _. split; [done|].
  unfold handleEndpoints_result.
  destruct (bool_decide (url ≠ QUrl_fromString (m_serverUrl s))).
  - repeat split; auto.
  - destruct (isBad (mkOpcUaStatus sc)); repeat split; auto.
Qed.

(** ** Changing the target *)

(** X6.  Once the target is set to an address, a completion for any
    address that converts to a different URL is ignored: setting the
    target and then receiving such a completion leaves the state and the
    effects of setting the target alone. *)
Theorem retarget_discards_completion n env env2 b eps sc url
    (s : OpcUaEndpointDiscovery) :
  url ≠ QUrl_fromString b →
  ∃ s1 log1,
    setServerUrl env (depth + n) b s = Some (tt, s1, log1)
    ∧ m_serverUrl s1 = b
    ∧ run (depth + n)
        [(env, call_setServerUrl b);
         (env2, call_handleEndpoints eps sc url)] s
      = Some (tt, s1, log1).
Proof.
  intros Hne. rewrite run_eval, setServerUrl_eval.
  eexists _, _. split; [done|].
  pose proof (setServerUrl_result_url env b s) as Hurl.
  split; [done|].
  cbn [run_result call_result]. unfold handleEndpoints_result.
  rewrite Hurl. rewrite bool_decide_eq_true_2 by done.
  cbn [fst snd]. by rewrite !app_nil_r.
Qed.

(** ** Setting the connection *)

Lemma setConnection_eval_depth n env c s :
  setConnection env (depth + n) c s
  = Some (tt, (setConnection_result env c s).1, (setConnection_result env c s).2).
Proof. apply (setConnection_eval (2 + n)). Qed.

(** X7.  [setConnection] with the null pointer or with the connection
    already set does nothing; after [setConnection] with a connection that
    connection is the one set, and setting it a second time changes
    nothing and emits nothing. *)
Theorem setConnection_twice n env env2 c (s : OpcUaEndpointDiscovery) :
  setConnection env (depth + n) None s = Some (tt, s, [])
  ∧ setConnection env (depth + n) (m_connection s) s = Some (tt, s, [])
  ∧ ∃ s1 log1,
      setConnection env (depth + n) (Some c) s = Some (tt, s1, log1)
      ∧ m_connection s1 = Some c
      ∧ setConnection env2 (depth + n) (Some c) s1 = Some (tt, s1, []).
Proof.
  pose proof (setConnection_eval_depth n) as Heval.
  assert (∀ env' s', setConnection env' (depth + n) (m_connection s') s'
                     = Some (tt, s', [])) as Hsame.
  { intros env' s'. rewrite Heval. unfold setConnection_result.
    rewrite bool_decide_eq_true_2 by done. by destruct (m_connection s'). }
  split; [by rewrite Heval|]. split; [apply Hsame|].
  eexists _, _. split; [apply Heval|].
  pose proof (setConnection_result_connection env c s) as Hc.
  split; [done|]. rewrite <- Hc at 1. apply Hsame.
Qed.

(** X8.  On an object that is ready (construction complete, target not
    empty), setting a different connection whose backend client is live
    restarts the discovery on that client: connectionChanged, one request
    for the stored target, endpointsChanged, statusChanged, and the object
    is pending on the new connection. *)
Theorem setConnection_restarts n env c cl (s : OpcUaEndpointDiscovery) :
  Some c ≠ m_connection s →
  m_componentCompleted s = true →
  QString_isEmpty (m_serverUrl s) = false →
  client_of env !! c = Some cl →
  ∃ s',
    setConnection env (depth + n) (Some c) s
    = Some (tt, s',
            [connectionChanged c;
             requestEndpoints cl (QUrl_fromString (m_serverUrl s));
             endpointsChanged; statusChanged])
    ∧ m_connection s' = Some c
    ∧ m_serverUrl s' = m_serverUrl s
    ∧ pending s'
    ∧ cl ∈ slots_endpointsRequestFinished s'.
Proof.
  intros Hne Hd Hu Hcl.
  rewrite setConnection_eval_depth.
  unfold setConnection_result. rewrite bool_decide_eq_false_2 by done.
  destruct (adopted_frame env c s) as (Hu' & Hc' & _ & _ & Hd').
  unfold startRequestEndpoints_result.
  rewrite Hd', Hd, Hu', Hu, Hc'. cbn [negb fst snd].
  unfold issued, pending. rewrite Hcl, Hu'. cbn [fst snd].
  eexists. split; [done|].
  cbn [m_connection m_serverUrl m_componentCompleted m_endpoints m_status
       slots_endpointsRequestFinished set_status set_endpoints].
  rewrite Hc', Hu', Hd', Hu.
  repeat split; try done.
  unfold adopted, subscribed. rewrite Hcl.
  cbn [slots_endpointsRequestFinished set_slots_endpointsRequestFinished].
  set_solver.
Qed.

(** ** Resolving the connection *)

Lemma connection_eval_depth n env s :
  connection env (depth + n) s
  = Some ((connection_result env s).1.1, (connection_result env s).1.2,
          (connection_result env s).2).
Proof. apply (connection_eval (1 + n)). Qed.

(** X9.  [connection()] returns the connection set, untouched, when there
    is one; otherwise it adopts the default connection, announcing it with
    connectionChanged first, and returns it; with no default connection
    registered it returns null and changes nothing. *)
Theorem connection_resolves n env (s : OpcUaEndpointDiscovery) :
  ∃ s' log,
    connection env (depth + n) s
    = Some (resolved env (m_connection s), s', log)
    ∧ m_connection s' = resolved env (m_connection s)
    ∧ match m_connection s, defaultConnection env with
      | Some _, _ | None, None => s' = s ∧ log = []
      | None, Some d => ∃ rest, log = connectionChanged d :: rest
      end.
Proof.
  rewrite connection_eval_depth.
  unfold connection_result, resolved.
  destruct (m_connection s) as [c|] eqn:Hc.
  - eexists _, _. by rewrite Hc.
  - destruct (defaultConnection env) as [d|].
    + pose proof (setConnection_result_connection env d s) as Hd.
      eexists _, _. cbn [fst snd]. rewrite Hd. split; [done|]. split; [done|].
      unfold setConnection_result. rewrite Hc.
      rewrite bool_decide_eq_false_2 by done. by eexists.
    + eexists _, _. cbn [setConnection_result fst snd]. by rewrite Hc.
Qed.

Lemma subscribed_idem env c s :
  subscribed env c (subscribed env c s) = subscribed env c s.
Proof.
  unfold subscribed. destruct (client_of env !! c) as [cl|]; [|done].
  unfold set_slots_endpointsRequestFinished. simpl. f_equal.
  by rewrite (assoc_L (∪)), union_idemp_L.
Qed.

(** X10.  [connectSignals] connects the completion signal of the resolved
    connection's client once: run a second time with the backends
    unchanged it changes nothing and emits nothing. *)
Theorem connectSignals_twice n env (s : OpcUaEndpointDiscovery) :
  ∃ s1 log1,
    connectSignals env (depth + n) s = Some (tt, s1, log1)
    ∧ connectSignals env (depth + n) s1 = Some (tt, s1, [])
    ∧ client_subscribed env s1.
Proof.
  assert (∀ c s0, m_connection s0 = Some c →
            connectSignals_result env (subscribed env c s0)
            = (subscribed env c s0, [])
            ∧ client_subscribed env (subscribed env c s0)) as Hsub.
  { intros c s0 Hc0.
    destruct (subscribed_frame env c s0) as (_ & Hc1 & _).
    split.
    - unfold connectSignals_result, connection_result.
      rewrite Hc1, Hc0. cbn [fst snd]. by rewrite subscribed_idem.
    - intros c' cl Hc' Hcl. rewrite Hc1, Hc0 in Hc'. injection Hc' as <-.
      unfold subscribed. rewrite Hcl. simpl. apply elem_of_union_l.
      by apply elem_of_singleton. }
  assert ((∃ c s0, m_connection s0 = Some c
                   ∧ (connectSignals_result env s).1 = subscribed env c s0)
          ∨ ((connectSignals_result env s).1 = s
             ∧ m_connection s = None ∧ defaultConnection env = None))
    as [(c & s0 & Hc0 & Hshape)|(Hshape & Hc & Hdef)].
  { unfold connectSignals_result, connection_result.
    destruct (m_connection s) as [c|] eqn:Hc; cbn [fst snd].
    - left. by exists c, s.
    - destruct (defaultConnection env) as [d|] eqn:Hdef.
      + pose proof (setConnection_result_connection env d s) as Hd.
        rewrite Hd. left. by eexists d, _.
      + right. cbn [setConnection_result fst snd]. by rewrite Hc. }
  - rewrite connectSignals_eval. eexists _, _. split; [done|].
    rewrite Hshape, connectSignals_eval.
    by destruct (Hsub c s0 Hc0) as [-> Hcs].
  - rewrite connectSignals_eval. eexists _, _. split; [done|].
    rewrite Hshape, connectSignals_eval.
    unfold connectSignals_result, connection_result.
    rewrite Hc, Hdef. cbn [setConnection_result fst snd]. rewrite Hc.
    split; [done|]. intros c cl Hc'. congruence.
Qed.

(** ** Sequences of entry points *)

Lemma run_members_result_preserves (P : OpcUaEndpointDiscovery → Prop) ms :
  (∀ env m s, P s → P (invoke_result env m s).1) →
  ∀ s, P s → P (run_members_result ms s).1.
Proof.
  intros Hstep. induction ms as [|[env m] ms IH]; intros s Hs; [done|].
  cbn [run_members_result fst]. by apply IH, Hstep.
Qed.

Lemma subscribed_slots env c s :
  slots_backendChanged (subscribed env c s) = slots_backendChanged s
  ∧ slots_endpointsRequestFinished s
    ⊆ slots_endpointsRequestFinished (subscribed env c s).
Proof.
  unfold subscribed. destruct (client_of env !! c); [|done].
  split; [done|]. simpl. apply union_subseteq_r.
Qed.

Lemma adopted_slots env c s :
  slots_backendChanged (adopted env c s)
  = {[c]} ∪ match m_connection s with
            | Some old => slots_backendChanged s ∖ {[old]}
            | None => slots_backendChanged s
            end
  ∧ slots_endpointsRequestFinished s
    ⊆ slots_endpointsRequestFinished (adopted env c s).
Proof.
  unfold adopted. cbn zeta.
  match goal with
  | |- context [subscribed env c ?s3] =>
      destruct (subscribed_slots env c s3) as [-> Hsub]
  end.
  split; [by destruct (m_connection s)|].
  etrans; [|exact Hsub]. by destruct (m_connection s).
Qed.

Lemma invoke_result_completed env m s :
  m_componentCompleted s = true →
  m_componentCompleted (invoke_result env m s).1 = true.
Proof.
  apply (invoke_result_preserves (λ s, m_componentCompleted s = true)); try done.
  - intros c s0 H0. by destruct (adopted_frame env c s0) as (_ & _ & _ & _ & ->).
  - intros c s0 H0. by destruct (subscribed_frame env c s0) as (_ & _ & _ & _ & ->).
Qed.

Lemma invoke_result_connected env m s :
  is_Some (m_connection s) → is_Some (m_connection (invoke_result env m s).1).
Proof.
  apply (invoke_result_preserves (λ s, is_Some (m_connection s))); try done.
  - intros c s0 H0. destruct (adopted_frame env c s0) as (_ & -> & _). by eexists.
  - intros c s0 H0. by destruct (subscribed_frame env c s0) as (_ & -> & _).
Qed.

Lemma invoke_result_clients env m s (g : gset QOpcUaClient) :
  g ⊆ slots_endpointsRequestFinished s →
  g ⊆ slots_endpointsRequestFinished (invoke_result env m s).1.
Proof.
  apply (invoke_result_preserves (λ s, g ⊆ slots_endpointsRequestFinished s));
    try done.
  - intros c s0 H0. etrans; [exact H0|]. apply adopted_slots.
  - intros c s0 H0. etrans; [exact H0|]. apply subscribed_slots.
Qed.

(** X11.  No sequence of entry points ever resets the construction flag,
    unsets the connection, or disconnects the completion signal of a
    client it was connected to. *)
Theorem run_members_never_undoes n ms (s0 : OpcUaEndpointDiscovery) :
  ∃ s log,
    run_members (depth + n) ms s0 = Some (tt, s, log)
    ∧ (m_componentCompleted s0 = true → m_componentCompleted s = true)
    ∧ (is_Some (m_connection s0) → is_Some (m_connection s))
    ∧ slots_endpointsRequestFinished s0 ⊆ slots_endpointsRequestFinished s.
Proof.
  rewrite run_members_eval. eexists _, _. split; [done|].
  split; [|split].
  - apply (run_members_result_preserves (λ s, m_componentCompleted s = true)).
    intros env m s. apply invoke_result_completed.
  - apply (run_members_result_preserves (λ s, is_Some (m_connection s))).
    intros env m s. apply invoke_result_connected.
  - apply (run_members_result_preserves
             (λ s, slots_endpointsRequestFinished s0
                   ⊆ slots_endpointsRequestFinished s)); [|done].
    intros env m s. apply invoke_result_clients.
Qed.

(** X12.  In every state reached from the constructed object the slot
    [connectSignals] is connected to [backendChanged] of exactly the
    connection set, and of none while no connection is set: a replaced
    connection is disconnected, a kept one is not connected twice. *)
Theorem backendChanged_follows_connection n ms :
  ∃ (s : OpcUaEndpointDiscovery) log,
    run_members (depth + n) ms constructed = Some (tt, s, log)
    ∧ slots_backendChanged s
      = match m_connection s with
        | Some c => {[c]}
        | None => ∅
        end.
Proof.
  rewrite run_members_eval. eexists _, _. split; [done|].
  apply (run_members_result_preserves
           (λ s, slots_backendChanged s
                 = match m_connection s with Some c => {[c]} | None => ∅ end));
    [|done].
  intros env.
  apply (invoke_result_preserves
           (λ s, slots_backendChanged s
                 = match m_connection s with Some c => {[c]} | None => ∅ end));
    try done.
  - intros c s Hs. destruct (adopted_slots env c s) as [-> _].
    destruct (adopted_frame env c s) as (_ & -> & _).
    rewrite Hs. destruct (m_connection s) as [old|].
    + rewrite difference_diag_L. apply (right_id_L ∅ (∪)).
    + apply (right_id_L ∅ (∪)).
  - intros c s Hs. destruct (subscribed_slots env c s) as [-> _].
    by destruct (subscribed_frame env c s) as (_ & -> & _).
Qed.

Lemma requests_elem_of cl u log :
  requestEndpoints cl u ∈ log → requestEndpoints cl u ∈ requests log.
Proof.
  rewrite !list_elem_of_In. intros Hin. unfold requests.
  apply filter_In. by split.
Qed.

Lemma invoke_result_client_subscribed env m s :
  client_subscribed env s → client_subscribed env (invoke_result env m s).1.
Proof.
  apply (invoke_result_preserves (client_subscribed env)); try done.
  - intros c s0 _ c' cl Hc' Hcl.
    destruct (adopted_frame env c s0) as (_ & Hc & _).
    rewrite Hc in Hc'. injection Hc' as <-.
    unfold adopted, subscribed. rewrite Hcl. simpl.
    apply elem_of_union_l. by apply elem_of_singleton.
  - intros c s0 H0 c' cl Hc' Hcl.
    destruct (subscribed_frame env c s0) as (_ & Hc & _).
    rewrite Hc in Hc'.
    by apply (proj2 (subscribed_slots env c s0)), (H0 c' cl).
Qed.

(** X13.  While the backends do not change, every request the object
    sends goes to a client whose completion signal is connected to
    [handleEndpoints], and stays connected: no answer to a request of the
    object can miss it. *)
Theorem requests_reach_subscribed_clients n env ms :
  Forall (λ em, em.1 = env) ms →
  ∃ (s : OpcUaEndpointDiscovery) log,
    run_members (depth + n) ms constructed = Some (tt, s, log)
    ∧ ∀ cl u,
        requestEndpoints cl u ∈ log →
        cl ∈ slots_endpointsRequestFinished s.
Proof.
  intros Hall. rewrite run_members_eval. eexists _, _. split; [done|].
  assert (client_subscribed env constructed) as H0 by (by intros c cl).
  revert H0. generalize constructed.
  induction Hall as [|[env' m] ms Henv Hall IH]; intros s0 H0 cl u Hin.
  { by apply elem_of_nil in Hin. }
  simpl in Henv. subst env'.
  cbn [run_members_result fst snd] in Hin |- *.
  pose proof (invoke_result_client_subscribed env m s0 H0) as H1.
  apply elem_of_app in Hin as [Hin|Hin]; [|by apply (IH _ H1 cl u)].
  apply requests_elem_of in Hin.
  destruct (invoke_result_requests env m s0)
    as [Hn|(c & cl' & Hc & Hcl & Hr & _)].
  { rewrite Hn in Hin. by apply elem_of_nil in Hin. }
  rewrite Hr in Hin. apply list_elem_of_singleton in Hin. injection Hin as -> _.
  apply (run_members_result_preserves
           (λ s, cl' ∈ slots_endpointsRequestFinished s)).
  - intros env' m' s' Hs'.
    apply (invoke_result_clients env' m' s' {[cl']}); set_solver.
  - by apply (H1 c cl').
Qed.

(** X14.  As long as [componentComplete] has not run, no sequence of entry
    points, whatever it contains, sends a request. *)
Theorem no_request_before_completion n ms :
  ∃ (s : OpcUaEndpointDiscovery) log,
    run_members (depth + n) ms constructed = Some (tt, s, log)
    ∧ (m_componentCompleted s = false → requests log = []).
Proof.
  rewrite run_members_eval. eexists _, _. split; [done|].
  generalize constructed.
  induction ms as [|[env m] ms IH]; intros s0 Hd; [done|].
  cbn [run_members_result fst snd] in Hd |- *.
  destruct (m_componentCompleted (invoke_result env m s0).1) eqn:Hd1.
  - pose proof (run_members_result_preserves
                  (λ s, m_componentCompleted s = true) ms
                  (λ env m s, invoke_result_completed env m s) _ Hd1).
    congruence.
  - rewrite requests_app, (IH _ Hd).
    destruct (invoke_result_requests env m s0)
      as [->|(c & cl & _ & _ & _ & Hp & _)]; [done|congruence].
Qed.

(** X15.  Every entry point returns, sends at most one request, and when
    it sends one the request is for the stored target, goes to the client
    of the connection set, and leaves the object pending: construction
    complete, target not empty, result set empty, status
    GoodCompletesAsynchronously. *)
Theorem invoke_sends_at_most_one_request n env m (s : OpcUaEndpointDiscovery) :
  ∃ s' log,
    invoke (depth + n) env m s = Some (tt, s', log)
    ∧ (length (requests log) ≤ 1)%nat
    ∧ (requests log ≠ [] →
       pending s'
       ∧ ∃ c cl,
           m_connection s' = Some c
           ∧ client_of env !! c = Some cl
           ∧ requests log
             = [requestEndpoints cl (QUrl_fromString (m_serverUrl s'))]).
Proof.
  rewrite invoke_eval. eexists _, _. split; [done|].
  destruct (invoke_result_requests env m s)
    as [Hn|(c & cl & Hc & Hcl & Hr & Hp)].
  - rewrite Hn. split; [simpl; lia|done].
  - rewrite Hr. split; [simpl; lia|]. intros _. split; [done|].
    by exists c, cl.
Qed.

(** X16.  The calls nested through the connectionChanged signal come to an
    end: with five levels of nesting [startRequestEndpoints],
    [setConnection], [connection] and [connectSignals] all return, and
    allowing more levels changes nothing. *)
Theorem nested_calls_return n env c (s : OpcUaEndpointDiscovery) :
  (is_Some (startRequestEndpoints env depth s)
   ∧ startRequestEndpoints env (depth + n) s = startRequestEndpoints env depth s)
  ∧ (is_Some (setConnection env depth c s)
     ∧ setConnection env (depth + n) c s = setConnection env depth c s)
  ∧ (is_Some (connection env depth s)
     ∧ connection env (depth + n) s = connection env depth s)
  ∧ (is_Some (connectSignals env depth s)
     ∧ connectSignals env (depth + n) s = connectSignals env depth s).
Proof.
  pose proof (startRequestEndpoints_eval 0 env s) as H1.
  pose proof (setConnection_eval_depth 0 env c s) as H2.
  pose proof (connection_eval_depth 0 env s) as H3.
  pose proof (connectSignals_eval 0 env s) as H4.
  change (depth + 0)%nat with depth in *.
  rewrite startRequestEndpoints_eval, setConnection_eval_depth,
    connection_eval_depth, connectSignals_eval, H1, H2, H3, H4.
  repeat split; by eexists.
Qed.

(** ** Notifications of the count *)

Lemma startRequestEndpoints_result_no_countChanged env s :
  countChanged ∉ (startRequestEndpoints_result env s).2.
Proof.
  rewrite list_elem_of_In. unfold startRequestEndpoints_result.
  destruct (negb (m_componentCompleted s)); [by intros []|].
  destruct (QString_isEmpty (m_serverUrl s)); [by intros []|].
  assert (∀ c s0, ¬ In countChanged (issued env c s0).2) as Hiss.
  { intros c s0. unfold issued.
    destruct (client_of env !! c); simpl; intuition discriminate. }
  destruct (m_connection s) as [c|]; [apply Hiss|].
  destruct (defaultConnection env) as [d|]; [|by intros []].
  cbn [snd]. intros [Heq|Hin]; [discriminate|]. by apply Hiss in Hin.
Qed.

(** X17.  When [startRequestEndpoints] passes its guards on a non-empty
    result set, [count] drops to 0 but countChanged is not among the
    notifications of the call. *)
Theorem startRequestEndpoints_count_silent n env (s : OpcUaEndpointDiscovery) :
  m_componentCompleted s = true →
  QString_isEmpty (m_serverUrl s) = false →
  m_endpoints s ≠ [] →
  ∃ s' log,
    startRequestEndpoints env (depth + n) s = Some (tt, s', log)
    ∧ 0 < count s
    ∧ count s' = 0
    ∧ countChanged ∉ log.
Proof.
  intros Hd Hu Hne. rewrite startRequestEndpoints_eval.
  eexists _, _. split; [done|]. split; [|split].
  - unfold count. destruct (m_endpoints s); [done|]. simpl. lia.
  - unfold count, startRequestEndpoints_result. rewrite Hd, Hu. cbn [negb].
    destruct (m_connection s) as [c|].
    + by destruct (issued_frame env c s) as (_ & _ & _ & ->).
    + destruct (defaultConnection env) as [d|]; [|done]. cbn [fst].
      by destruct (issued_frame env d (adopted env d (set_endpoints [] s)))
        as (_ & _ & _ & ->).
  - apply startRequestEndpoints_result_no_countChanged.
Qed.

End Discovery.

(** ** The code on the sample plant *)

Import Sample.

Local Abbreviation new_object := (@constructed endpoint).

Lemma handleEndpoints_stale_witness :
  urlB ≠ QUrl_text (m_serverUrl (set_serverUrl urlA new_object))
  ∧ handleEndpoints QUrl_text [ep1] QOpcUa.Good urlB
      (set_serverUrl urlA new_object)
    = Some (tt, set_serverUrl urlA new_object, []).
Proof.
  assert (urlB ≠ QUrl_text (m_serverUrl (set_serverUrl urlA new_object)))
    as Hne by (vm_compute; discriminate).
  split; [exact Hne|].
  exact (handleEndpoints_stale QUrl_text [ep1] QOpcUa.Good urlB _ Hne).
Defined.

Lemma handleEndpoints_good_witness :
  urlA = QUrl_text (m_serverUrl (set_serverUrl urlA new_object))
  ∧ isGood (mkOpcUaStatus QOpcUa.Good) = true
  ∧ ∃ s', handleEndpoints QUrl_text [ep1] QOpcUa.Good urlA
            (set_serverUrl urlA new_object)
          = Some (tt, s', [endpointsChanged; countChanged; statusChanged])
      ∧ m_endpoints s' = [ep1]
      ∧ s' = set_endpoints [ep1]
               (set_status (mkOpcUaStatus QOpcUa.Good)
                  (set_serverUrl urlA new_object))
      ∧ handleEndpoints_seen QUrl_text [ep1] QOpcUa.Good urlA
          (set_serverUrl urlA new_object)
        = Some (tt, s',
                [(endpointsChanged, s'); (countChanged, s');
                 (statusChanged, s')]).
Proof.
  split; [reflexivity|]. split; [reflexivity|].
  exact (handleEndpoints_good QUrl_text [ep1] QOpcUa.Good urlA
           (set_serverUrl urlA new_object) eq_refl eq_refl).
Defined.


Lemma handleEndpoints_not_bad_witness :
  urlA = QUrl_text (m_serverUrl (set_serverUrl urlA new_object))
  ∧ isBad (mkOpcUaStatus QOpcUa.GoodCompletesAsynchronously) = false
  ∧ QOpcUa.GoodCompletesAsynchronously ≠ QOpcUa.Good
  ∧ ∃ s', handleEndpoints QUrl_text [ep1] QOpcUa.GoodCompletesAsynchronously
            urlA (set_serverUrl urlA new_object)
          = Some (tt, s', [endpointsChanged; countChanged; statusChanged])
      ∧ m_endpoints s' = [ep1]
      ∧ m_status s' = mkOpcUaStatus QOpcUa.GoodCompletesAsynchronously.
Proof.
  split; [reflexivity|]. split; [reflexivity|]. split; [discriminate|].
  exact (handleEndpoints_not_bad QUrl_text [ep1]
           QOpcUa.GoodCompletesAsynchronously urlA
           (set_serverUrl urlA new_object) eq_refl eq_refl).
Defined.

Lemma startRequestEndpoints_empty_target_witness :
  m_serverUrl (set_componentCompleted true new_object) = ""
  ∧ startRequestEndpoints QUrl_text plant (depth + 0)
      (set_componentCompleted true new_object)
    = Some (tt, set_componentCompleted true new_object, []).
Proof.
  split; [reflexivity|].
  exact (startRequestEndpoints_empty_target QUrl_text 0 plant
           (set_componentCompleted true new_object) eq_refl).
Defined.

(** C2 as stated fails.  After a good answer for target A the target is
    set to the empty string: [startRequestEndpoints], run by the signal
    and once more directly, returns at its guard; the status is still Good,
    not BadInvalidArgument, and the result set still holds the endpoint. *)
Lemma empty_target_keeps_status_and_results :
  ∃ s,
    run QUrl_text depth
      [(plant, call_setConnection (Some conn1));
       (plant, call_setServerUrl urlA);
       (plant, call_componentComplete);
       (plant, call_handleEndpoints [ep1] QOpcUa.Good urlA);
       (plant, call_setServerUrl "")]
      new_object
    = Some (tt, s,
            [connectionChanged conn1; serverUrlChanged urlA;
             requestEndpoints client1 urlA; endpointsChanged; statusChanged;
             endpointsChanged; countChanged; statusChanged;
             serverUrlChanged ""])
    ∧ m_componentCompleted s = true
    ∧ m_serverUrl s = ""
    ∧ startRequestEndpoints QUrl_text plant depth s = Some (tt, s, [])
    ∧ m_status s = mkOpcUaStatus QOpcUa.Good
    ∧ m_status s ≠ mkOpcUaStatus QOpcUa.BadInvalidArgument
    ∧ m_endpoints s = [ep1].
Proof.
  eexists. split; [vm_compute; reflexivity|].
  repeat split; try (vm_compute; reflexivity). vm_compute; discriminate.
Qed.

Lemma startRequestEndpoints_notifications_witness :
  m_componentCompleted
    (set_connection (Some conn1)
       (set_componentCompleted true (set_serverUrl urlA new_object))) = true
  ∧ QString_isEmpty
      (m_serverUrl
         (set_connection (Some conn1)
            (set_componentCompleted true (set_serverUrl urlA new_object))))
    = false
  ∧ ∃ s' log,
      startRequestEndpoints QUrl_text plant (depth + 0)
        (set_connection (Some conn1)
           (set_componentCompleted true (set_serverUrl urlA new_object)))
      = Some (tt, s', log)
      ∧ log = [requestEndpoints client1 urlA; endpointsChanged; statusChanged].
Proof.
  split; [reflexivity|]. split; [reflexivity|].
  exact (startRequestEndpoints_notifications QUrl_text 0 plant
           (set_connection (Some conn1)
              (set_componentCompleted true (set_serverUrl urlA new_object)))
           eq_refl eq_refl).
Defined.

(** C8 as stated fails.  Construction is complete and the target is set,
    but no connection is set and no default connection is registered:
    [startRequestEndpoints] passes both guards and returns without
    emitting anything. *)
Lemma startRequestEndpoints_silent_without_connection :
  m_componentCompleted
    (set_componentCompleted true (set_serverUrl urlA new_object)) = true
  ∧ QString_isEmpty
      (m_serverUrl (set_componentCompleted true (set_serverUrl urlA new_object)))
    = false
  ∧ defaultConnection plant = None
  ∧ startRequestEndpoints QUrl_text plant depth
      (set_componentCompleted true (set_serverUrl urlA new_object))
    = Some (tt, set_componentCompleted true (set_serverUrl urlA new_object), []).
Proof. repeat split; vm_compute; reflexivity. Qed.

(** The accessor on a result set of one endpoint. *)
Example at_on_one_endpoint :
  at_ no_endpoint (set_endpoints [ep1] new_object) 0 = Some ep1
  ∧ at_ no_endpoint (set_endpoints [ep1] new_object) 1 = Some no_endpoint
  ∧ at_ no_endpoint (set_endpoints [ep1] new_object) (-1) = None.
Proof. repeat split. Qed.

(** With no connection set, [componentComplete] adopts the default
    connection; the request is sent by the invocation nested in
    [connectionChanged]. *)
Example componentComplete_adopts_default :
  ∃ s,
    run QUrl_text depth
      [(plant_default, call_setServerUrl urlA);
       (plant_default, call_componentComplete)]
      new_object
    = Some (tt, s,
            [serverUrlChanged urlA; connectionChanged conn1;
             requestEndpoints client1 urlA; endpointsChanged; statusChanged])
    ∧ m_connection s = Some conn1
    ∧ m_status s = mkOpcUaStatus QOpcUa.GoodCompletesAsynchronously.
Proof. eexists. split; [vm_compute; reflexivity|]. split; reflexivity. Qed.

(** Setting the same target twice on a ready object: one request. *)
Example setServerUrl_twice_one_request :
  ∃ s,
    run QUrl_text depth
      [(plant, call_setConnection (Some conn1));
       (plant, call_componentComplete);
       (plant, call_setServerUrl urlA);
       (plant, call_setServerUrl urlA)]
      new_object
    = Some (tt, s,
            [connectionChanged conn1; serverUrlChanged urlA;
             requestEndpoints client1 urlA; endpointsChanged; statusChanged]).
Proof. eexists. vm_compute. reflexivity. Qed.

Lemma construction_defers_request_witness :
  Forall construction_call
    [(plant, @call_setServerUrl endpoint string urlB);
     (plant, call_setConnection (Some conn1));
     (plant, call_setServerUrl urlA)]
  ∧ ∃ s log,
      run QUrl_text (depth + 0)
        [(plant, call_setServerUrl urlB);
         (plant, call_setConnection (Some conn1));
         (plant, call_setServerUrl urlA)]
        new_object
      = Some (tt, s, log)
      ∧ requests log = []
      ∧ m_serverUrl s = urlA
      ∧ m_connection s = Some conn1
      ∧ ∃ s' log',
          componentComplete QUrl_text plant (depth + 0) s = Some (tt, s', log')
          ∧ requests log' = [requestEndpoints client1 urlA]
          ∧ (length (requests log') ≤ 1)%nat.
Proof.
  assert (Forall construction_call
            [(plant, @call_setServerUrl endpoint string urlB);
             (plant, call_setConnection (Some conn1));
             (plant, call_setServerUrl urlA)]) as Hall
    by (repeat constructor).
  split; [exact Hall|].
  exact (construction_defers_request QUrl_text 0 _ plant Hall).
Defined.

(** C5 as stated fails.  The target is set during construction but no
    connection is, and none is registered as default: [componentComplete]
    sends no request at all. *)
Lemma componentComplete_without_request :
  ∃ s log',
    run QUrl_text depth [(plant, call_setServerUrl urlA)] new_object
    = Some (tt, s, [serverUrlChanged urlA])
    ∧ m_serverUrl s = urlA
    ∧ componentComplete QUrl_text plant depth s
      = Some (tt, set_componentCompleted true s, log')
    ∧ log' = []
    ∧ length (requests log') ≠ 1%nat.
Proof.
  eexists _, _. split; [vm_compute; reflexivity|].
  split; [reflexivity|]. split; [vm_compute; reflexivity|].
  split; [reflexivity|]. simpl. lia.
Qed.

Lemma nonempty_endpoints_origin_witness :
  ∃ s log,
    run QUrl_text (depth + 0)
      [(plant, call_setServerUrl urlA);
       (plant, call_handleEndpoints [ep1] QOpcUa.Good urlA);
       (plant, call_handleEndpoints [] QOpcUa.BadTimeout urlA)]
      new_object
    = Some (tt, s, log)
    ∧ m_endpoints s = [ep1]
    ∧ m_endpoints s ≠ []
    ∧ ∃ sc,
        matching_completion QUrl_text (depth + 0)
          [(plant, call_setServerUrl urlA);
           (plant, call_handleEndpoints [ep1] QOpcUa.Good urlA);
           (plant, call_handleEndpoints [] QOpcUa.BadTimeout urlA)]
          (m_endpoints s) sc
        ∧ isBad (mkOpcUaStatus sc) = false
        ∧ (m_status s = mkOpcUaStatus sc
           ∨ isBad (m_status s) = true
             ∧ ∃ eps' sc',
                 matching_completion QUrl_text (depth + 0)
                   [(plant, call_setServerUrl urlA);
                    (plant, call_handleEndpoints [ep1] QOpcUa.Good urlA);
                    (plant, call_handleEndpoints [] QOpcUa.BadTimeout urlA)]
                   eps' sc'
                 ∧ m_status s = mkOpcUaStatus sc').
Proof.
  destruct (nonempty_endpoints_origin QUrl_text 0
              [(plant, call_setServerUrl urlA);
               (plant, call_handleEndpoints [ep1] QOpcUa.Good urlA);
               (plant, call_handleEndpoints [] QOpcUa.BadTimeout urlA)])
    as (s & log & Hrun & Horigin).
  assert (m_endpoints s = [ep1]) as Heps.
  { pose proof Hrun as Hrun'. vm_compute in Hrun'.
    injection Hrun' as <- _. reflexivity. }
  assert (m_endpoints s ≠ []) as Hne by (rewrite Heps; discriminate).
  exists s, log. split; [exact Hrun|]. split; [exact Heps|].
  split; [exact Hne|]. exact (Horigin Hne).
Defined.

(** C7 as stated fails.  Setting the same target twice on the freshly
    constructed object sends no request, and neither does it on a
    completed object whose connection has lost its backend client: the
    pair produces none, not exactly one. *)
Lemma setServerUrl_twice_without_request :
  (∃ s log,
     run QUrl_text depth
       [(plant, call_setServerUrl urlA); (plant, call_setServerUrl urlA)]
       new_object
     = Some (tt, s, log)
     ∧ log = [serverUrlChanged urlA]
     ∧ requests log = []
     ∧ length (requests log) ≠ 1%nat)
  ∧ (∃ s log,
       run QUrl_text depth
         [(plant_offline, call_setConnection (Some conn1));
          (plant_offline, call_componentComplete)]
         new_object
       = Some (tt, s, [connectionChanged conn1])
       ∧ run QUrl_text depth
           [(plant_offline, call_setServerUrl urlA);
            (plant_offline, call_setServerUrl urlA)]
           s
         = Some (tt, set_status (mkOpcUaStatus QOpcUa.BadNotConnected)
                       (set_serverUrl urlA s), log)
       ∧ log = [serverUrlChanged urlA; endpointsChanged; statusChanged]
       ∧ requests log = []
       ∧ length (requests log) ≠ 1%nat).
Proof.
  split.
  - eexists _, _. split; [vm_compute; reflexivity|].
    split; [reflexivity|]. split; [reflexivity|]. simpl. lia.
  - eexists _, _. split; [vm_compute; reflexivity|].
    split; [vm_compute; reflexivity|].
    split; [reflexivity|]. split; [reflexivity|]. simpl. lia.
Qed.

Lemma setServerUrl_unchanged_witness :
  ∃ s1 log1,
    setServerUrl QUrl_text plant (depth + 0) urlA
      (set_connection (Some conn1) (set_componentCompleted true new_object))
    = Some (tt, s1, log1)
    ∧ run QUrl_text (depth + 0)
        [(plant, call_setServerUrl urlA); (plant, call_setServerUrl urlA)]
        (set_connection (Some conn1) (set_componentCompleted true new_object))
      = Some (tt, s1, log1)
    ∧ requests log1 = [requestEndpoints client1 urlA].
Proof.
  destruct (setServerUrl_unchanged QUrl_text 0 plant
              (set_connection (Some conn1)
                 (set_componentCompleted true new_object)))
    as [_ Htwice].
  destruct (Htwice urlA plant) as (s1 & log1 & Hset & Hrun & _ & _ & Hone).
  exists s1, log1. split; [exact Hset|]. split; [exact Hrun|].
  apply (Hone conn1 client1); [discriminate|reflexivity..].
Defined.

(** C1 as stated fails.  Target A is requested, then B, then A again; the
    first answer for A is good and brings one endpoint, the answer to the
    third request is a timeout: the result set still holds the endpoint
    while the status is bad. *)
Lemma nonempty_endpoints_with_bad_status :
  ∃ s,
    run QUrl_text depth
      [(plant, call_setConnection (Some conn1));
       (plant, call_componentComplete);
       (plant, call_setServerUrl urlA);
       (plant, call_setServerUrl urlB);
       (plant, call_setServerUrl urlA);
       (plant, call_handleEndpoints [ep1] QOpcUa.Good urlA);
       (plant, call_handleEndpoints [] QOpcUa.BadTimeout urlA)]
      new_object
    = Some (tt, s,
            [connectionChanged conn1;
             serverUrlChanged urlA;
             requestEndpoints client1 urlA; endpointsChanged; statusChanged;
             serverUrlChanged urlB;
             requestEndpoints client1 urlB; endpointsChanged; statusChanged;
             serverUrlChanged urlA;
             requestEndpoints client1 urlA; endpointsChanged; statusChanged;
             endpointsChanged; countChanged; statusChanged;
             statusChanged])
    ∧ m_endpoints s = [ep1]
    ∧ m_endpoints s ≠ []
    ∧ m_status s = mkOpcUaStatus QOpcUa.BadTimeout
    ∧ m_status s ≠ mkOpcUaStatus QOpcUa.Good.
Proof.
  eexists. split; [vm_compute; reflexivity|].
  repeat split; try (vm_compute; reflexivity); vm_compute; discriminate.
Qed.

(** ** More runs on the sample plant *)

Local Abbreviation ready_object :=
  (set_connection (Some conn1)
     (set_componentCompleted true (set_serverUrl urlA new_object))).

Lemma startRequestEndpoints_not_connected_witness :
  m_componentCompleted ready_object = true
  ∧ QString_isEmpty (m_serverUrl ready_object) = false
  ∧ resolved plant_offline (m_connection ready_object) = Some conn1
  ∧ client_of plant_offline !! conn1 = None
  ∧ ∃ s' log,
      startRequestEndpoints QUrl_text plant_offline (depth + 0) ready_object
      = Some (tt, s', log)
      ∧ m_status s' = mkOpcUaStatus QOpcUa.BadNotConnected
      ∧ m_endpoints s' = []
      ∧ m_connection s' = Some conn1
      ∧ requests log = []
      ∧ ∃ pre, log = pre ++ [endpointsChanged; statusChanged].
Proof.
  split; [reflexivity|]. split; [reflexivity|]. split; [reflexivity|].
  split; [reflexivity|].
  exact (startRequestEndpoints_not_connected QUrl_text 0 plant_offline
           ready_object conn1 eq_refl eq_refl eq_refl eq_refl).
Defined.

Lemma startRequestEndpoints_pending_witness :
  m_componentCompleted ready_object = true
  ∧ QString_isEmpty (m_serverUrl ready_object) = false
  ∧ resolved plant (m_connection ready_object) = Some conn1
  ∧ client_of plant !! conn1 = Some client1
  ∧ ∃ s' pre,
      startRequestEndpoints QUrl_text plant (depth + 0) ready_object
      = Some (tt, s',
              pre ++ [requestEndpoints client1 urlA;
                      endpointsChanged; statusChanged])
      ∧ requests pre = []
      ∧ pending s'
      ∧ m_connection s' = Some conn1
      ∧ m_serverUrl s' = urlA.
Proof.
  split; [reflexivity|]. split; [reflexivity|]. split; [reflexivity|].
  split; [reflexivity|].
  exact (startRequestEndpoints_pending QUrl_text 0 plant ready_object
           conn1 client1 eq_refl eq_refl eq_refl eq_refl).
Defined.

Lemma startRequestEndpoints_clears_witness :
  m_componentCompleted (set_endpoints [ep1] ready_object) = true
  ∧ QString_isEmpty (m_serverUrl (set_endpoints [ep1] ready_object)) = false
  ∧ ∃ s' log,
      startRequestEndpoints QUrl_text plant (depth + 0)
        (set_endpoints [ep1] ready_object)
      = Some (tt, s', log)
      ∧ m_endpoints s' = []
      ∧ count s' = 0
      ∧ ∀ row, 0 ≤ row → at_ no_endpoint s' row = Some no_endpoint.
Proof.
  split; [reflexivity|]. split; [reflexivity|].
  exact (startRequestEndpoints_clears no_endpoint QUrl_text 0 plant
           (set_endpoints [ep1] ready_object) eq_refl eq_refl).
Defined.

Lemma handleEndpoints_then_at_witness :
  isBad (mkOpcUaStatus QOpcUa.Good) = false
  ∧ ∃ s' log,
      handleEndpoints QUrl_text [ep1; urlB] QOpcUa.Good
        (QUrl_text (m_serverUrl ready_object)) ready_object
      = Some (tt, s', log)
      ∧ count s' = 2
      ∧ (∀ i e, [ep1; urlB] !! i = Some e → at_ no_endpoint s' (Z.of_nat i) = Some e)
      ∧ (∀ row, 2 ≤ row → at_ no_endpoint s' row = Some no_endpoint).
Proof.
  split; [reflexivity|].
  exact (handleEndpoints_then_at no_endpoint QUrl_text [ep1; urlB]
           QOpcUa.Good ready_object eq_refl).
Defined.

Lemma retarget_discards_completion_witness :
  QUrl_text urlA ≠ QUrl_text urlB
  ∧ ∃ s1 log1,
      setServerUrl QUrl_text plant (depth + 0) urlB ready_object
      = Some (tt, s1, log1)
      ∧ m_serverUrl s1 = urlB
      ∧ run QUrl_text (depth + 0)
          [(plant, call_setServerUrl urlB);
           (plant, call_handleEndpoints [ep1] QOpcUa.Good (QUrl_text urlA))]
          ready_object
        = Some (tt, s1, log1).
Proof.
  assert (QUrl_text urlA ≠ QUrl_text urlB) as Hne by discriminate.
  split; [exact Hne|].
  exact (retarget_discards_completion QUrl_text 0 plant plant urlB [ep1]
           QOpcUa.Good (QUrl_text urlA) ready_object Hne).
Defined.

Lemma setConnection_restarts_witness :
  Some conn2 ≠ m_connection ready_object
  ∧ m_componentCompleted ready_object = true
  ∧ QString_isEmpty (m_serverUrl ready_object) = false
  ∧ client_of plant_two !! conn2 = Some client2
  ∧ ∃ s',
      setConnection QUrl_text plant_two (depth + 0) (Some conn2) ready_object
      = Some (tt, s',
              [connectionChanged conn2; requestEndpoints client2 urlA;
               endpointsChanged; statusChanged])
      ∧ m_connection s' = Some conn2
      ∧ m_serverUrl s' = urlA
      ∧ pending s'
      ∧ client2 ∈ slots_endpointsRequestFinished s'.
Proof.
  assert (Some conn2 ≠ m_connection ready_object) as Hne by discriminate.
  split; [exact Hne|]. split; [reflexivity|]. split; [reflexivity|].
  split; [reflexivity|].
  exact (setConnection_restarts QUrl_text 0 plant_two conn2 client2
           ready_object Hne eq_refl eq_refl eq_refl).
Defined.

Lemma run_members_never_undoes_witness :
  m_componentCompleted ready_object = true
  ∧ is_Some (m_connection ready_object)
  ∧ ∃ s log,
      run_members QUrl_text (depth + 0)
        [(plant_two, member_call (call_setConnection (Some conn2)));
         (plant_two, member_call (call_setServerUrl ""));
         (plant_two, member_call (call_setConnection None));
         (plant_offline, member_connectSignals)]
        ready_object
      = Some (tt, s, log)
      ∧ m_componentCompleted s = true
      ∧ is_Some (m_connection s)
      ∧ slots_endpointsRequestFinished ready_object
        ⊆ slots_endpointsRequestFinished s.
Proof.
  assert (is_Some (m_connection ready_object)) as Hc by (by exists conn1).
  split; [reflexivity|]. split; [exact Hc|].
  destruct (run_members_never_undoes QUrl_text 0
              [(plant_two, member_call (call_setConnection (Some conn2)));
               (plant_two, member_call (call_setServerUrl ""));
               (plant_two, member_call (call_setConnection None));
               (plant_offline, member_connectSignals)]
              ready_object) as (s & log & Hrun & Hd & Hconn & Hsub).
  exists s, log. split; [exact Hrun|]. split; [exact (Hd eq_refl)|].
  split; [exact (Hconn Hc)|exact Hsub].
Defined.

Lemma requests_reach_subscribed_clients_witness :
  Forall (λ em, em.1 = plant)
    [(plant, member_call (@call_setServerUrl endpoint string urlA));
     (plant, member_call call_componentComplete);
     (plant, member_call (call_setConnection (Some conn1)));
     (plant, member_call (call_setServerUrl urlB))]
  ∧ ∃ s log,
      run_members QUrl_text (depth + 0)
        [(plant, member_call (call_setServerUrl urlA));
         (plant, member_call call_componentComplete);
         (plant, member_call (call_setConnection (Some conn1)));
         (plant, member_call (call_setServerUrl urlB))]
        new_object
      = Some (tt, s, log)
      ∧ requestEndpoints client1 urlB ∈ log
      ∧ client1 ∈ slots_endpointsRequestFinished s.
Proof.
  assert (Forall (λ em, em.1 = plant)
            [(plant, member_call (@call_setServerUrl endpoint string urlA));
             (plant, member_call call_componentComplete);
             (plant, member_call (call_setConnection (Some conn1)));
             (plant, member_call (call_setServerUrl urlB))]) as Hall
    by (repeat constructor).
  split; [exact Hall|].
  destruct (requests_reach_subscribed_clients QUrl_text 0 plant _ Hall)
    as (s & log & Hrun & Hreach).
  assert (requestEndpoints client1 urlB ∈ log) as Hin.
  { pose proof Hrun as Hrun'. vm_compute in Hrun'.
    injection Hrun' as _ <-. rewrite list_elem_of_In. simpl. auto 10. }
  exists s, log. split; [exact Hrun|]. split; [exact Hin|].
  exact (Hreach client1 urlB Hin).
Defined.

Lemma no_request_before_completion_witness :
  ∃ s log,
    run_members QUrl_text (depth + 0)
      [(plant_default, member_call (call_setServerUrl urlA));
       (plant_default, member_connection);
       (plant_default, member_call call_startRequestEndpoints);
       (plant_default, member_connectSignals);
       (plant_default, member_call (call_handleEndpoints [ep1] QOpcUa.Good urlA))]
      new_object
    = Some (tt, s, log)
    ∧ m_componentCompleted s = false
    ∧ m_connection s = Some conn1
    ∧ requests log = [].
Proof.
  destruct (no_request_before_completion QUrl_text 0
              [(plant_default, member_call (@call_setServerUrl endpoint string urlA));
               (plant_default, member_connection);
               (plant_default, member_call call_startRequestEndpoints);
               (plant_default, member_connectSignals);
               (plant_default,
                member_call (call_handleEndpoints [ep1] QOpcUa.Good urlA))])
    as (s & log & Hrun & Hnone).
  assert (m_componentCompleted s = false ∧ m_connection s = Some conn1) as [Hd Hc].
  { pose proof Hrun as Hrun'. vm_compute in Hrun'.
    injection Hrun' as <- _. split; reflexivity. }
  exists s, log. split; [exact Hrun|]. split; [exact Hd|].
  split; [exact Hc|exact (Hnone Hd)].
Defined.

Lemma invoke_sends_at_most_one_request_witness :
  ∃ s' log,
    invoke QUrl_text (depth + 0) plant (member_call (call_setServerUrl urlB))
      ready_object
    = Some (tt, s', log)
    ∧ requests log = [requestEndpoints client1 urlB]
    ∧ pending s'
    ∧ m_serverUrl s' = urlB.
Proof.
  destruct (invoke_sends_at_most_one_request QUrl_text 0 plant
              (member_call (call_setServerUrl urlB)) ready_object)
    as (s' & log & Hinv & _ & Hone).
  assert (requests log = [requestEndpoints client1 urlB] ∧ m_serverUrl s' = urlB)
    as [Hreq Hurl].
  { pose proof Hinv as Hinv'. vm_compute in Hinv'.
    injection Hinv' as <- <-. split; reflexivity. }
  assert (requests log ≠ []) as Hne by (rewrite Hreq; discriminate).
  exists s', log. split; [exact Hinv|]. split; [exact Hreq|].
  split; [exact (proj1 (Hone Hne))|exact Hurl].
Defined.

(** Four levels of nesting are not enough when the default connection has
    to be adopted. *)
Example four_levels_run_out :
  startRequestEndpoints QUrl_text plant_default 4
    (set_componentCompleted true (set_serverUrl urlA new_object)) = None
  ∧ is_Some
      (startRequestEndpoints QUrl_text plant_default depth
         (set_componentCompleted true (set_serverUrl urlA new_object))).
Proof. split; [reflexivity|]. vm_compute. by eexists. Qed.

Lemma startRequestEndpoints_count_silent_witness :
  m_componentCompleted (set_endpoints [ep1] ready_object) = true
  ∧ QString_isEmpty (m_serverUrl (set_endpoints [ep1] ready_object)) = false
  ∧ m_endpoints (set_endpoints [ep1] ready_object) ≠ []
  ∧ ∃ s' log,
      startRequestEndpoints QUrl_text plant (depth + 0)
        (set_endpoints [ep1] ready_object)
      = Some (tt, s', log)
      ∧ 0 < count (set_endpoints [ep1] ready_object)
      ∧ count s' = 0
      ∧ countChanged ∉ log.
Proof.
  assert (m_endpoints (set_endpoints [ep1] ready_object) ≠ []) as Hne
    by discriminate.
  split; [reflexivity|]. split; [reflexivity|]. split; [exact Hne|].
  exact (startRequestEndpoints_count_silent QUrl_text 0 plant
           (set_endpoints [ep1] ready_object) eq_refl eq_refl Hne).
Defined.
